(** * A shallow embedding of the router's controller pipeline

    The development follows the TypeScript sources:
    - [errors/ResponseError.ts] and [errors/GenericErrors.ts]: the error model
      and its JSON rendering;
    - [validation.ts]: the Standard Schema adapter, the UUID test and the
      formatting of issue paths;
    - [controller.ts]: the per-request controller and its stages;
    - [router.ts]: the route table and the handler wrapped around a controller.

    Promises are modelled by their outcome: an awaited call either yields a
    value or throws ([result]).  Collaborators (request body, authentication
    provider, schema validator, user logic, logger) are functions of the
    model.  A string is a sequence of code units below 256, one [ascii]
    each; paths are POSIX paths. *)

From Stdlib Require Import ZArith String Ascii List Bool Lia.
From stdpp Require Import base option list gmap strings pretty.

Import ListNotations.
Local Open Scope string_scope.
Local Open Scope Z_scope.
Local Set Warnings "-register-all,-clear-no-such-hyp".

(** ** JavaScript values *)

(** A JavaScript number is a double.  The library never computes with
    one: it tests it ([if (x)], [x !== 1]) and prints it.  A number is
    therefore given by the text that [Number::toString] prints for it, which
    tells the numbers apart: [2], [-7], [1.5], [1e+21], [NaN], [Infinity]
    (and [0] for both zeros, which the library does not distinguish). *)
Definition number : Type := string.

(** The fragment of JavaScript values that the library inspects.  [VObj]
    lists the own enumerable properties of an object in the order in which
    [JSON.stringify] enumerates them. *)
Inductive value : Type :=
| VUndefined
| VNull
| VBool (b : bool)
| VNum (n : number)
| VStr (s : string)
| VArr (items : list value)
| VObj (props : list (string * value)).

(** ToBoolean, as used by [if (x)], [!x] and [x && y]. *)
Definition truthy (v : value) : bool :=
  match v with
  | VUndefined | VNull => false
  | VBool b => b
  | VNum n => negb (String.eqb n "0" || String.eqb n "NaN")
  | VStr s => negb (String.eqb s EmptyString)
  | VArr _ | VObj _ => true
  end.

(** [typeof v === "object" && v]: objects and arrays. *)
Definition is_object (v : value) : bool :=
  match v with
  | VArr _ | VObj _ => true
  | _ => false
  end.

(** [v === undefined]. *)
Definition is_undefined (v : value) : bool :=
  match v with
  | VUndefined => true
  | _ => false
  end.

(** [a ?? b] on values: [b] when [a] is [null] or [undefined]. *)
Definition nullish_or (a b : value) : value :=
  match a with
  | VUndefined | VNull => b
  | _ => a
  end.

(** ** JSON.stringify *)

Module JSON.

Definition hex_digit (n : N) : string :=
  String (match n with
          | 0 => "0" | 1 => "1" | 2 => "2" | 3 => "3" | 4 => "4"
          | 5 => "5" | 6 => "6" | 7 => "7" | 8 => "8" | 9 => "9"
          | 10 => "a" | 11 => "b" | 12 => "c" | 13 => "d" | 14 => "e"
          | _ => "f"
          end%N%char) EmptyString.

Definition backslash : string := String (ascii_of_N 92) EmptyString.

(** QuoteJSONString, one code unit at a time: the double quote (34) and
    the backslash (92) are escaped, the control characters below 32 have
    a short escape or a [u00XX] one. *)
Definition escape_char (c : ascii) : string :=
  let n := N_of_ascii c in
  if (n =? 34)%N then backslash ++ String c EmptyString
  else if (n =? 92)%N then backslash ++ backslash
  else if (n =? 8)%N then backslash ++ "b"
  else if (n =? 9)%N then backslash ++ "t"
  else if (n =? 10)%N then backslash ++ "n"
  else if (n =? 12)%N then backslash ++ "f"
  else if (n =? 13)%N then backslash ++ "r"
  else if (n <? 32)%N
       then backslash ++ "u00" ++ hex_digit (n / 16) ++ hex_digit (n mod 16)
  else String c EmptyString.

Fixpoint escape (s : string) : string :=
  match s with
  | EmptyString => EmptyString
  | String c rest => escape_char c ++ escape rest
  end.

Definition quote (s : string) : string :=
  String (ascii_of_N 34) (escape s ++ String (ascii_of_N 34) EmptyString).

(** The numbers that are not finite. *)
Definition non_finite (n : number) : bool :=
  String.eqb n "NaN" || String.eqb n "Infinity" || String.eqb n "-Infinity".

(** [JSON.stringify(v)] for a value that is not [undefined] at top level.
    Inside an array [undefined] prints as [null]; a property whose value
    is [undefined] is left out; a number that is not finite prints as
    [null]. *)
Fixpoint stringify (v : value) : string :=
  match v with
  | VUndefined | VNull => "null"
  | VBool true => "true"
  | VBool false => "false"
  | VNum n => if non_finite n then "null" else n
  | VStr s => quote s
  | VArr items => "[" ++ String.concat "," (map stringify items) ++ "]"
  | VObj props =>
      "{" ++ String.concat ","
        ((fix members (ps : list (string * value)) : list string :=
            match ps with
            | [] => []
            | (_, VUndefined) :: rest => members rest
            | (k, x) :: rest => (quote k ++ ":" ++ stringify x) :: members rest
            end) props) ++ "}"
  end.

End JSON.

(** ** The error model ([errors/ResponseError.ts]) *)

Record FieldError : Type := mkFieldError {
  field : string;
  fe_message : string
}.

(** The object literal [{ field, message }] as a JavaScript value. *)
Definition FieldError_value (fe : FieldError) : value :=
  VObj [("field", VStr (field fe)); ("message", VStr (fe_message fe))].

(** An [Error] that is not a [ResponseError], by its message (the stack
    trace is left out of the model). *)
Record JsError : Type := mkJsError {
  err_message : string
}.

(** Instances of [ResponseError].  [data] is [VUndefined] when no data
    object was given; [fieldErrors] is [None] when the property is
    [undefined]; [responseCode] is an integer. *)
Record ResponseError : Type := mkResponseError {
  name : string;
  message : string;
  responseCode : Z;
  data : value;
  fieldErrors : option (list FieldError);
  internalError : option JsError
}.

(** A [Response]: its status and the value sent as its JSON body. *)
Record Response : Type := mkResponse {
  status : Z;
  body : value
}.

(** Property read [o[k]] on an object value. *)
Fixpoint assoc (k : string) (ps : list (string * value)) : option value :=
  match ps with
  | [] => None
  | (k', v) :: rest => if String.eqb k k' then Some v else assoc k rest
  end.

Definition get (k : string) (v : value) : option value :=
  match v with
  | VObj ps => assoc k ps
  | _ => None
  end.

(** ** The generic errors ([errors/GenericErrors.ts]) *)

(** [Partial<ResponseErrorConfig>]: every property may be left out. *)
Record Overrides : Type := mkOverrides {
  o_message : option string;
  o_responseCode : option Z;
  o_data : value;
  o_fieldErrors : option (list FieldError);
  o_internalError : option JsError
}.

Definition no_overrides : Overrides :=
  {| o_message := None; o_responseCode := None; o_data := VUndefined;
     o_fieldErrors := None; o_internalError := None |}.

(** [{ message }] *)
Definition with_message (m : string) : Overrides :=
  {| o_message := Some m; o_responseCode := None; o_data := VUndefined;
     o_fieldErrors := None; o_internalError := None |}.

(** [{ fieldErrors }] *)
Definition with_fieldErrors (fes : list FieldError) : Overrides :=
  {| o_message := None; o_responseCode := None; o_data := VUndefined;
     o_fieldErrors := Some fes; o_internalError := None |}.

(** The defaults of a generated class: [Omit<ResponseErrorConfig,
    "internalError" | "fieldErrors">]. *)
Record Defaults : Type := mkDefaults {
  d_message : string;
  d_responseCode : Z;
  d_data : value
}.

(** [makeErrorClass(name, defaults)], applied to the constructor argument
    [overrides?]. *)
Definition makeErrorClass (nm : string) (defaults : Defaults)
    (overrides : option Overrides) : ResponseError :=
  {| name := nm;
     message := default (d_message defaults) (overrides ≫= o_message);
     responseCode :=
       default (d_responseCode defaults) (overrides ≫= o_responseCode);
     data :=
       nullish_or (from_option o_data VUndefined overrides) (d_data defaults);
     fieldErrors := overrides ≫= o_fieldErrors;
     internalError := overrides ≫= o_internalError |}.

Definition NotFoundError : option Overrides → ResponseError :=
  makeErrorClass "NotFoundError"
    {| d_message := "Not Found"; d_responseCode := 404; d_data := VUndefined |}.

Definition ConflictError : option Overrides → ResponseError :=
  makeErrorClass "ConflictError"
    {| d_message := "Conflict"; d_responseCode := 409; d_data := VUndefined |}.

Definition InternalServerError : option Overrides → ResponseError :=
  makeErrorClass "InternalServerError"
    {| d_message := "Internal Server Error"; d_responseCode := 500;
       d_data := VUndefined |}.

Definition UnauthorizedError : option Overrides → ResponseError :=
  makeErrorClass "UnauthorizedError"
    {| d_message := "Unauthorized"; d_responseCode := 401;
       d_data := VUndefined |}.

Definition ForbiddenError : option Overrides → ResponseError :=
  makeErrorClass "ForbiddenError"
    {| d_message := "Forbidden"; d_responseCode := 403; d_data := VUndefined |}.

Definition ValidationError : option Overrides → ResponseError :=
  makeErrorClass "ValidationError"
    {| d_message := "Bad Request"; d_responseCode := 400;
       d_data := VUndefined |}.

(** ** Outcomes of awaited calls *)

(** What a [throw] (or a rejected promise) carries. *)
Inductive thrown : Type :=
| ThrowResponseError (e : ResponseError)
| ThrowError (e : JsError)
| ThrowValue (v : value).

Inductive result (A : Type) : Type :=
| Ok (a : A)
| Throw (t : thrown).
Arguments Ok {A} a.
Arguments Throw {A} t.

#[global] Instance result_ret : MRet result := λ A a, Ok a.
#[global] Instance result_bind : MBind result := λ A B f m,
  match m with
  | Ok a => f a
  | Throw t => Throw t
  end.
#[global] Instance result_fmap : FMap result := λ A B f m,
  match m with
  | Ok a => Ok (f a)
  | Throw t => Throw t
  end.

(** [try { body } catch (err) { handler }] *)
Definition try_catch {A} (m : result A) (h : thrown → result A) : result A :=
  match m with
  | Ok a => Ok a
  | Throw t => h t
  end.

(** The statuses that a [Response] accepts: 101 and 200 to 599. *)
Definition valid_status (n : Z) : bool :=
  (n =? 101) || ((200 <=? n) && (n <=? 599)).

(** The [RangeError] thrown for any other status. *)
Definition status_RangeError (n : Z) : JsError :=
  {| err_message :=
       "The status provided (" ++ pretty n ++
       ") must be 101 or in the range of [200, 599]" |}.

(** [Response.json(body, { status })] *)
Definition Response_json (body : value) (status : Z) : result Response :=
  if valid_status status
  then Ok {| status := status; body := body |}
  else Throw (ThrowError (status_RangeError status)).

(** [ResponseError.toResponse] *)
Definition toResponse (e : ResponseError) : result Response :=
  let _response := [("message", VStr (message e))] in
  let _response :=
    if truthy (data e)
    then (_response ++ [("data", VStr (JSON.stringify (data e)))])%list
    else _response in
  let _response :=
    match fieldErrors e with
    | Some fes =>
        (_response ++
          [("fields",
            VStr (JSON.stringify (VArr (map FieldError_value fes))))])%list
    | None => _response
    end in
  Response_json (VObj _response) (responseCode e).

(** ** Validation ([validation.ts]) *)

Definition in_range (lo hi : N) (c : ascii) : bool :=
  let n := N_of_ascii c in ((lo <=? n) && (n <=? hi))%N.

(** [[0-9a-fA-F]] *)
Definition hex (c : ascii) : bool :=
  in_range 48 57 c || in_range 97 102 c || in_range 65 70 c.

(** [[1-5]] *)
Definition version_nibble (c : ascii) : bool := in_range 49 53 c.

(** [[89abAB]] *)
Definition variant_nibble (c : ascii) : bool :=
  in_range 56 57 c || in_range 97 98 c || in_range 65 66 c.

Definition hyphen (c : ascii) : bool := (N_of_ascii c =? 45)%N.

(** The regular expression of [validateUUID] is a fixed sequence of
    character classes between [^] and [$]. *)
Definition uuid_pattern : list (ascii → bool) :=
  (replicate 8 hex ++ [hyphen] ++
   replicate 4 hex ++ [hyphen] ++
   [version_nibble] ++ replicate 3 hex ++ [hyphen] ++
   [variant_nibble] ++ replicate 3 hex ++ [hyphen] ++
   replicate 12 hex)%list.

(** A string matches [^c1 c2 ... cn$] when it has exactly [n] characters,
    the i-th in the i-th class. *)
Fixpoint matches (classes : list (ascii → bool)) (s : string) : bool :=
  match classes, s with
  | [], EmptyString => true
  | cls :: classes', String c s' => cls c && matches classes' s'
  | _, _ => false
  end.

Definition validateUUID (uuid : string) : bool := matches uuid_pattern uuid.

(** [PropertyKey]: a string, a number or a symbol (by its description). *)
Inductive PropertyKey : Type :=
| KString (s : string)
| KNumber (n : number)
| KSymbol (description : option string).

(** A path element: a bare key or a [PathSegment] object [{ key }]. *)
Inductive PathElement : Type :=
| Bare (k : PropertyKey)
| PathSegment (key : PropertyKey).

Record Issue : Type := mkIssue {
  issue_message : option string;
  path : option (list PathElement)
}.

(** [String(key)] *)
Definition String_of_key (k : PropertyKey) : string :=
  match k with
  | KString s => s
  | KNumber n => n
  | KSymbol d => "Symbol(" ++ default EmptyString d ++ ")"
  end.

(** The function mapped over the path by [formatPath]. *)
Definition formatSegment (seg : PathElement) : string :=
  let key := match seg with
             | PathSegment k => k
             | Bare k => k
             end in
  match key with
  | KNumber n => "[" ++ n ++ "]"
  | _ => String_of_key key
  end.

Definition formatPath (p : option (list PathElement)) : string :=
  match p with
  | None | Some [] => EmptyString
  | Some segs => String.concat "." (map formatSegment segs)
  end.

Definition mapIssues (issues : list Issue) : list FieldError :=
  map (λ i, {| field := formatPath (path i);
               fe_message := default "Invalid" (issue_message i) |}) issues.

(** The resolved outcome of [validate]: [issues] is [None] when the
    property is absent; [out_value] is what [resolved.value] reads. *)
Record Outcome : Type := mkOutcome {
  issues : option (list Issue);
  out_value : value
}.

(** [schema["~standard"]]: [validate] is [None] when the property is not a
    function. *)
Record StandardProps : Type := mkStandardProps {
  version : value;
  validate : option (value → result Outcome)
}.

(** A schema object; [standard] is [None] when the property is missing or
    falsy. *)
Record Schema : Type := mkSchema {
  standard : option StandardProps
}.

(** [props.version !== 1] *)
Definition version_is_1 (v : value) : bool :=
  match v with
  | VNum n => String.eqb n "1"
  | _ => false
  end.

Definition parseStandardSchema (input : value) (schema : Schema)
    : result value :=
  match standard schema with
  | None =>
      Throw (ThrowResponseError (ValidationError (Some
        (with_message "Schema does not implement StandardSchemaV1"))))
  | Some props =>
      match version_is_1 (version props), validate props with
      | true, Some validate =>
          resolved ← validate input;
          match issues resolved with
          | Some iss =>
              let fieldErrors := mapIssues iss in
              Throw (ThrowResponseError
                       (ValidationError (Some (with_fieldErrors fieldErrors))))
          | None => Ok (out_value resolved)
          end
      | _, _ =>
          Throw (ThrowResponseError (ValidationError (Some
            (with_message "Schema does not implement StandardSchemaV1"))))
      end
  end.

(** ** The controller ([controller.ts]) *)

Definition Headers : Type := list (string * string).

(** The request, as far as the library reads it.  [req_params] is [None]
    when the server attached no [params] object; a key bound to
    [undefined] is a key that is not in the map.  [req_json] is the outcome
    of [request.json()]. *)
Record Request : Type := mkRequest {
  url : string;
  headers : Headers;
  req_params : option (gmap string string);
  req_json : result value
}.

(** [AuthProvider] *)
Record AuthProvider : Type := mkAuthProvider {
  getSession : Headers → result value
}.

(** [RouteControllerProps], the constructor's argument; [ctx] is given by
    the session it holds. *)
Record RouteControllerProps : Type := mkProps {
  request : Request;
  ctx : value;
  requiresAuthentication : bool;
  inputSchema : option Schema;
  validateUUIDs : option (list string);
  authProvider : option AuthProvider
}.

(** A controller instance: the read-only properties and the fields the
    stages assign.  [params] is [None] until [_validateUUIDs] assigns it;
    [json] and [session] are [VUndefined] until assigned. *)
Record BaseController : Type := mkController {
  props : RouteControllerProps;
  ctx_session : value;
  json : value;
  session : value;
  params : option (gmap string string);
  responseError : option ResponseError
}.

(** The constructor. *)
Definition new (args : RouteControllerProps) : BaseController :=
  {| props := args; ctx_session := ctx args; json := VUndefined;
     session := VUndefined; params := None; responseError := None |}.

Definition set_responseError (e : ResponseError) (c : BaseController)
    : BaseController :=
  {| props := props c; ctx_session := ctx_session c; json := json c;
     session := session c; params := params c; responseError := Some e |}.

Definition set_params (m : gmap string string) (c : BaseController)
    : BaseController :=
  {| props := props c; ctx_session := ctx_session c; json := json c;
     session := session c; params := Some m;
     responseError := responseError c |}.

Definition set_json (v : value) (c : BaseController) : BaseController :=
  {| props := props c; ctx_session := ctx_session c; json := v;
     session := session c; params := params c;
     responseError := responseError c |}.

Definition set_session (s : value) (c : BaseController) : BaseController :=
  {| props := props c; ctx_session := s; json := json c;
     session := s; params := params c;
     responseError := responseError c |}.

(** The methods a concrete controller supplies: the abstract [run], which
    may change the controller (for instance through [failWith]), and
    [additionalValidation], whose result is [None] when it is nullish. *)
Class Controller : Type := mkImpl {
  run : BaseController → result (Response * BaseController);
  additionalValidation : value → result (option (list FieldError))
}.

(** [failWith]: the error is assigned before it is rendered, so it stays
    on the controller when the rendering throws. *)
Definition failWith (error : ResponseError) (c : BaseController)
    : result Response * BaseController :=
  (toResponse error, set_responseError error c).

(** [validatedParams[key] = raw] on the plain object [validatedParams]:
    the key [__proto__] reaches the setter of the prototype, which ignores a
    string, so that no property is made. *)
Definition assign (key raw : string) (validatedParams : gmap string string)
    : gmap string string :=
  if String.eqb key "__proto__" then validatedParams
  else <[key := raw]> validatedParams.

(** The body of the [for] loop of [_validateUUIDs]: [None] stands for the
    two early returns, which set the same error.  [params] holds the own
    properties of [request.params]; a key that the object only inherits
    reads as an object or a function, which fails the UUID test, so that it
    ends in the same early return as a key that is missing. *)
Fixpoint validate_keys (params : gmap string string) (keys : list string)
    (validatedParams : gmap string string) : option (gmap string string) :=
  match keys with
  | [] => Some validatedParams
  | key :: rest =>
      match params !! key with
      | None => None
      | Some raw =>
          if negb (truthy (VStr raw)) then None
          else if validateUUID raw
               then validate_keys params rest (assign key raw validatedParams)
               else None
      end
  end.

Definition _validateUUIDs (c : BaseController) : result BaseController :=
  match validateUUIDs (props c) with
  | None => Ok (set_params ∅ c)
  | Some keys =>
      match req_params (request (props c)) with
      | None => Ok (set_params ∅ c)
      | Some params =>
          match validate_keys params keys ∅ with
          | None => Ok (set_params ∅ (set_responseError (NotFoundError None) c))
          | Some validatedParams => Ok (set_params validatedParams c)
          end
      end
  end.

Definition _checkAuthStatus (c : BaseController) : result BaseController :=
  match authProvider (props c) with
  | None =>
      if requiresAuthentication (props c)
      then Ok (set_responseError
                 (UnauthorizedError (Some
                    (with_message "Authentication provider not configured"))) c)
      else Ok c
  | Some provider =>
      session ← getSession provider (headers (request (props c)));
      if requiresAuthentication (props c) && negb (truthy session)
      then Ok (set_responseError
                 (UnauthorizedError (Some
                    (with_message "You must be logged in to view this content")))
                 c)
      else Ok (set_session session c)
  end.

Definition _validateJSONInput (c : BaseController) : result BaseController :=
  match inputSchema (props c), responseError c with
  | Some schema, None =>
      match req_json (request (props c)) with
      | Throw _ =>
          Ok (set_responseError
                (ValidationError (Some
                   (with_message "Invalid JSON body provided"))) c)
      | Ok jsonUnsafe =>
          try_catch
            (out ← parseStandardSchema jsonUnsafe schema;
             Ok (set_json out c))
            (λ err,
               match err with
               | ThrowResponseError e => Ok (set_responseError e c)
               | _ => Ok (set_responseError
                            (ValidationError (Some
                               (with_message "Invalid input"))) c)
               end)
      end
  | _, _ => Ok c
  end.

(** Assignment to [responseError.fieldErrors]. *)
Definition with_fields (fes : list FieldError) (e : ResponseError)
    : ResponseError :=
  {| name := name e; message := message e; responseCode := responseCode e;
     data := data e; fieldErrors := Some fes;
     internalError := internalError e |}.

Section Pipeline.

Context {impl : Controller}.

Definition _additionalValidation (c : BaseController)
    : result BaseController :=
  if is_undefined (json c) then Ok c
  else
    let baseFieldErrors :=
      default [] (responseError c ≫= fieldErrors) in
    additionalErrors ← additionalValidation (json c);
    let fieldErrors :=
      match additionalErrors with
      | Some ((_ :: _) as extra) => (baseFieldErrors ++ extra)%list
      | _ => baseFieldErrors
      end in
    match fieldErrors with
    | _ :: _ =>
        let responseError :=
          default (ValidationError None) (responseError c) in
        Ok (set_responseError (with_fields fieldErrors responseError) c)
    | [] => Ok c
    end.

Definition init (c : BaseController) : result BaseController :=
  c ← _validateUUIDs c;
  c ← _checkAuthStatus c;
  c ← _validateJSONInput c;
  _additionalValidation c.

Definition respond (c : BaseController) : result Response :=
  match responseError c with
  | Some e => toResponse e
  | None =>
      '(resp, c') ← run c;
      match responseError c' with
      | Some e => toResponse e
      | None => Ok resp
      end
  end.

Definition invoke (c : BaseController) : result Response :=
  c ← init c; respond c.

End Pipeline.

(** [createController]: the configuration, and the class it returns, given
    by its methods and its constructor. *)
Record ControllerConfig : Type := mkConfig {
  validationSchema : option Schema;
  cfg_validateUUIDs : option (list string);
  cfg_requiresAuthentication : bool;
  cfg_authProvider : option AuthProvider
}.

Definition createController
    (handler : BaseController → result (Response * BaseController))
    (config : ControllerConfig)
    (additionalValidator : option (value → result (option (list FieldError))))
    : Controller * (Request → value → BaseController) :=
  ({| run := handler;
      additionalValidation := λ validated,
        match additionalValidator with
        | Some f => r ← f validated; Ok (Some (default [] r))
        | None => Ok (Some [])
        end |},
   λ request ctx,
     new {| request := request; ctx := ctx;
            requiresAuthentication := cfg_requiresAuthentication config;
            inputSchema := validationSchema config;
            validateUUIDs := cfg_validateUUIDs config;
            authProvider := cfg_authProvider config |}).

(** [BaseController.additionalValidation], the default. *)
Definition default_additionalValidation (validated : value)
    : result (option (list FieldError)) := Ok (Some []).

(** ** The router ([router.ts]) *)

(** [String(v)] *)
Fixpoint String_of_value (v : value) : string :=
  match v with
  | VUndefined => "undefined"
  | VNull => "null"
  | VBool true => "true"
  | VBool false => "false"
  | VNum n => n
  | VStr s => s
  | VArr items =>
      String.concat ","
        (map (λ x, match x with
                   | VUndefined | VNull => EmptyString
                   | _ => String_of_value x
                   end) items)
  | VObj _ => "[object Object]"
  end.

(** The case mappings of the code units below 256: the letters A to Z and
    the accented capitals 192 to 222 (without the multiplication sign, 215)
    are 32 below their small forms.  Three small letters have their capital
    outside these code units (181, 223 and 255); [toUpperCase_char] leaves
    them as they are, and the library applies [toUpperCase] to the names of
    the methods only. *)
Definition toLowerCase_char (c : ascii) : ascii :=
  if in_range 65 90 c ||
     (in_range 192 222 c && negb (N_of_ascii c =? 215)%N)
  then ascii_of_N (N_of_ascii c + 32) else c.

Definition toUpperCase_char (c : ascii) : ascii :=
  if in_range 97 122 c ||
     (in_range 224 254 c && negb (N_of_ascii c =? 247)%N)
  then ascii_of_N (N_of_ascii c - 32) else c.

Fixpoint map_string (f : ascii → ascii) (s : string) : string :=
  match s with
  | EmptyString => EmptyString
  | String c rest => String (f c) (map_string f rest)
  end.

(** [s.toLowerCase()] and [s.toUpperCase()] *)
Definition toLowerCase : string → string := map_string toLowerCase_char.
Definition toUpperCase : string → string := map_string toUpperCase_char.

Module Router.

Inductive Method : Type :=
| M_get | M_post | M_patch | M_put | M_delete | M_head | M_options.

Definition methods : list Method :=
  [M_get; M_post; M_patch; M_put; M_delete; M_head; M_options].

Definition Method_string (m : Method) : string :=
  match m with
  | M_get => "get"
  | M_post => "post"
  | M_patch => "patch"
  | M_put => "put"
  | M_delete => "delete"
  | M_head => "head"
  | M_options => "options"
  end.

(** [methodSet.has(name)], with the member found. *)
Definition Method_of_string (s : string) : option Method :=
  List.find (λ m, String.eqb (Method_string m) s) methods.

Record Discovered : Type := mkDiscovered {
  path : string;
  handler : string;
  method : Method
}.

(** What [logger.error] receives. *)
Record LogEntry : Type := mkLogEntry {
  log_message : string;
  log_internalError : JsError;
  log_stack : bool;
  log_url : string;
  log_method : option string;
  log_path : string
}.

(** A class found as a default export: [new Ctor(req, ctx)] followed by
    [invoke()]. *)
Definition RouteClass : Type := Request → value → result Response.

(** The class that [createController] exports. *)
Definition controller_class
    (cls : Controller * (Request → value → BaseController)) : RouteClass :=
  λ request ctx, @invoke (fst cls) (snd cls request ctx).

(** An imported module: [default] is [None] when the default export is
    not a function. *)
Record RouteModule : Type := mkModule {
  default_export : option RouteClass
}.

(** [logger.error(message, meta)], which may throw. *)
Definition Logger : Type := LogEntry → result unit.

(** A table entry: the outcome of the handler, and the calls it made to
    the logger. *)
Definition Handler : Type := Request → result Response * list LogEntry.

(** The [try] block of the [handler] closure of [parseRoutes]. *)
Definition attempt (authProvider : option AuthProvider) (Ctor : RouteClass)
    (request : Request) : result Response :=
  session ← match authProvider with
            | Some provider => getSession provider (headers request)
            | None => Ok VUndefined
            end;
  Ctor request session.

(** [if (logger) logger.error(...)]: the outcome and the calls made. *)
Definition log (logger : option Logger) (entry : LogEntry)
    : result unit * list LogEntry :=
  match logger with
  | Some error => (error entry, [entry])
  | None => (Ok tt, [])
  end.

(** [e instanceof Error ? e : new Error(String(e))] *)
Definition as_Error (t : thrown) : JsError :=
  match t with
  | ThrowError e => e
  | ThrowValue v => {| err_message := String_of_value v |}
  | ThrowResponseError e => {| err_message := message e |}
  end.

(** The [handler] closure of [parseRoutes]. *)
Definition route_handler (authProvider : option AuthProvider)
    (logger : option Logger) (Ctor : RouteClass) (key method : string)
    : Handler :=
  λ request,
    match attempt authProvider Ctor request with
    | Ok response => (Ok response, [])
    | Throw (ThrowResponseError e) =>
        let logged :=
          match internalError e with
          | Some internal =>
              log logger
                {| log_message := message e;
                   log_internalError := internal; log_stack := false;
                   log_url := url request; log_method := Some method;
                   log_path := key |}
          | None => (Ok tt, [])
          end in
        (logged.1 ≫= (λ _, toResponse e), logged.2)
    | Throw other =>
        let error := as_Error other in
        let logged :=
          log logger
            {| log_message := err_message error;
               log_internalError := error; log_stack := true;
               log_url := url request; log_method := None;
               log_path := key |} in
        (logged.1 ≫= (λ _, toResponse (InternalServerError None)), logged.2)
    end.

(** The [for] loop of [parseRoutes] over the discovered entries paired
    with their imported modules.  [routes] and [route] are plain objects
    read and written by key; they are maps here because no key is the name
    of a property that a plain object inherits: a path made by [readRoutes]
    holds a separator, and the method keys are the seven upper-case names. *)
Fixpoint register (authProvider : option AuthProvider)
    (logger : option Logger)
    (entries : list (Discovered * RouteModule))
    (routes : gmap string (gmap string Handler))
    : result (gmap string (gmap string Handler)) :=
  match entries with
  | [] => Ok routes
  | (d, imported) :: rest =>
      match default_export imported with
      | None =>
          Throw (ThrowError {| err_message :=
            "Route controller " ++ path d ++ "/" ++
            Method_string (method d) ++ " must default export a class." |})
      | Some Ctor =>
          let key := path d in
          let method_ := toUpperCase (Method_string (method d)) in
          let route := default ∅ (routes !! key) in
          match route !! method_ with
          | Some _ =>
              Throw (ThrowError {| err_message :=
                "Router " ++ Method_string (method d) ++ " " ++ path d ++
                " is redefined" |})
          | None =>
              register authProvider logger rest
                (<[key := <[method_ :=
                     route_handler authProvider logger Ctor key method_]>
                   route]> routes)
          end
      end
  end.

(** [Promise.all] over the imports: all the modules, or a rejection. *)
Fixpoint import_all (import : string → result RouteModule)
    (discovered : list Discovered) : result (list RouteModule) :=
  match discovered with
  | [] => Ok []
  | d :: rest =>
      m ← import (handler d);
      ms ← import_all import rest;
      Ok (m :: ms)
  end.

Definition parseRoutes (import : string → result RouteModule)
    (discovered : list Discovered) (authProvider : option AuthProvider)
    (logger : option Logger) : result (gmap string (gmap string Handler)) :=
  imports ← import_all import discovered;
  register authProvider logger (zip discovered imports) ∅.

(** [path.basename] and [path.dirname] of a relative POSIX path, as the
    scan yields them: the text after, and before, the last separator. *)
Fixpoint split_last (s acc_dir acc_name : string) (seen : bool)
    : string * string :=
  match s with
  | EmptyString => ((if seen then acc_dir else "."), acc_name)
  | String c rest =>
      if (N_of_ascii c =? 47)%N
      then split_last rest
             (if seen then acc_dir ++ "/" ++ acc_name else acc_name)
             EmptyString true
      else split_last rest acc_dir (acc_name ++ String c EmptyString) seen
  end.

Definition dirname (file : string) : string :=
  fst (split_last file EmptyString EmptyString false).

Definition basename (file : string) : string :=
  snd (split_last file EmptyString EmptyString false).

(** [name.slice(0, -3)] *)
Definition drop_extension (name : string) : string :=
  String.substring 0 (String.length name - 3) name.

(** [s.replace(/\/{2,}/g, "/")] *)
Fixpoint collapse_slashes (s : string) : string :=
  match s with
  | EmptyString => EmptyString
  | String c rest =>
      match rest with
      | String c' _ =>
          if ((N_of_ascii c =? 47) && (N_of_ascii c' =? 47))%N
          then collapse_slashes rest
          else String c (collapse_slashes rest)
      | EmptyString => String c EmptyString
      end
  end.

(** The texts between the separators of a path. *)
Fixpoint segments (s current : string) : list string :=
  match s with
  | EmptyString => [current]
  | String c rest =>
      if (N_of_ascii c =? 47)%N
      then current :: segments rest EmptyString
      else segments rest (current ++ String c EmptyString)
  end.

(** [normalizeString] of [path], segment by segment: an empty segment and
    [.] are dropped, [..] removes the segment before it, or is kept when
    there is none to remove and the path is relative.  [kept] holds the
    segments kept so far, the last one first. *)
Fixpoint normalize_segments (allowAboveRoot : bool) (segs kept : list string)
    : list string :=
  match segs with
  | [] => rev kept
  | seg :: rest =>
      if String.eqb seg EmptyString || String.eqb seg "."
      then normalize_segments allowAboveRoot rest kept
      else if String.eqb seg ".." then
        match kept with
        | last :: before =>
            if String.eqb last ".."
            then normalize_segments allowAboveRoot rest
                   (if allowAboveRoot then ".." :: kept else kept)
            else normalize_segments allowAboveRoot rest before
        | [] =>
            normalize_segments allowAboveRoot rest
              (if allowAboveRoot then [".."] else [])
        end
      else normalize_segments allowAboveRoot rest (seg :: kept)
  end.

Fixpoint ends_with_slash (s : string) : bool :=
  match s with
  | EmptyString => false
  | String c EmptyString => (N_of_ascii c =? 47)%N
  | String _ rest => ends_with_slash rest
  end.

(** [path.normalize] for POSIX paths. *)
Definition normalize (p : string) : string :=
  match p with
  | EmptyString => "."
  | String c _ =>
      let isAbsolute := (N_of_ascii c =? 47)%N in
      let trailingSeparator := ends_with_slash p in
      let res :=
        String.concat "/"
          (normalize_segments (negb isAbsolute) (segments p EmptyString) []) in
      if String.eqb res EmptyString
      then (if isAbsolute then "/"
            else if trailingSeparator then "./" else ".")
      else
        let res := if trailingSeparator then res ++ "/" else res in
        if isAbsolute then "/" ++ res else res
  end.

(** [path.join(a, b)]: the arguments that are not empty, with a separator
    between them, normalised. *)
Definition join (a b : string) : string :=
  if String.eqb a EmptyString then
    (if String.eqb b EmptyString then "." else normalize b)
  else if String.eqb b EmptyString then normalize a
  else normalize (a ++ "/" ++ b).

(** One turn of the loop of [readRoutes], for a file that the scan yields:
    a relative path with [/] as its separator. *)
Definition discover (dir routePrefix file : string) : option Discovered :=
  let name := basename file in
  match Method_of_string (toLowerCase (drop_extension name)) with
  | None => None
  | Some method =>
      let dirPath := dirname file in
      let relative :=
        if String.eqb dirPath "." then "/"
        else "/" ++ toLowerCase dirPath in
      let routePath := collapse_slashes (routePrefix ++ relative) in
      Some {| path := routePath; handler := join dir file;
              method := method |}
  end.

(** [readRoutes], over the files that the scan of [dir] yields. *)
Definition readRoutes (scan : list string) (dir routePrefix : string)
    : list Discovered :=
  omap (discover dir routePrefix) scan.

Record RoutesConfig : Type := mkRoutesConfig {
  routesDirectory : string;
  routePrefix : option string;
  rc_authProvider : option AuthProvider;
  rc_logger : option Logger
}.

Definition getRoutes (scan : list string)
    (import : string → result RouteModule) (config : RoutesConfig)
    : result (gmap string (gmap string Handler)) :=
  let discovered :=
    readRoutes scan (routesDirectory config)
      (default EmptyString (routePrefix config)) in
  match discovered with
  | [] => Ok ∅
  | _ => parseRoutes import discovered (rc_authProvider config)
           (rc_logger config)
  end.

End Router.

(** * Specification-side definitions and concrete inputs *)

(** ** Reading JSON text *)

(** A reader of JSON text without white space, written from the grammar of
    JSON and not from [JSON.stringify]: it is the yardstick for what the
    properties call a JSON-encoded string. *)
Module Decode.

Definition is_char (n : N) (c : ascii) : bool := (N_of_ascii c =? n)%N.

Definition digit (c : ascii) : bool := in_range 48 57 c.

(** The characters of a JSON number: digits, sign, point and exponent. *)
Definition number_char (c : ascii) : bool :=
  digit c || is_char 45 c || is_char 43 c || is_char 46 c ||
  is_char 101 c || is_char 69 c.

(** The longest prefix made of such characters, and what follows it. *)
Fixpoint span_number (s : string) : string * string :=
  match s with
  | EmptyString => (EmptyString, EmptyString)
  | String c rest =>
      if number_char c
      then (String c (span_number rest).1, (span_number rest).2)
      else (EmptyString, s)
  end.

Definition hex_value (c : ascii) : option N :=
  let n := N_of_ascii c in
  if in_range 48 57 c then Some (n - 48)%N
  else if in_range 97 102 c then Some (n - 87)%N
  else if in_range 65 70 c then Some (n - 55)%N
  else None.

(** The character that a two-character escape stands for. *)
Definition unescape (c : ascii) : option ascii :=
  let n := N_of_ascii c in
  if (n =? 34)%N then Some (ascii_of_N 34)
  else if (n =? 92)%N then Some (ascii_of_N 92)
  else if (n =? 47)%N then Some (ascii_of_N 47)
  else if (n =? 98)%N then Some (ascii_of_N 8)
  else if (n =? 102)%N then Some (ascii_of_N 12)
  else if (n =? 110)%N then Some (ascii_of_N 10)
  else if (n =? 114)%N then Some (ascii_of_N 13)
  else if (n =? 116)%N then Some (ascii_of_N 9)
  else None.

(** The characters of a string after its opening quote, up to the closing
    quote, and what follows.  A [u] escape above 255 has no character in
    the strings of the model. *)
Fixpoint chars (s : string) : option (string * string) :=
  match s with
  | EmptyString => None
  | String c rest =>
      if is_char 34 c then Some (EmptyString, rest)
      else if is_char 92 c then
        match rest with
        | EmptyString => None
        | String e rest1 =>
            if is_char 117 e then
              match rest1 with
              | String h1 (String h2 (String h3 (String h4 rest2))) =>
                  match hex_value h1, hex_value h2, hex_value h3,
                        hex_value h4 with
                  | Some a, Some b, Some c3, Some d =>
                      let code := (((a * 16 + b) * 16 + c3) * 16 + d)%N in
                      if (code <? 256)%N
                      then match chars rest2 with
                           | Some (str, r) =>
                               Some (String (ascii_of_N code) str, r)
                           | None => None
                           end
                      else None
                  | _, _, _, _ => None
                  end
              | _ => None
              end
            else
              match unescape e with
              | Some ch =>
                  match chars rest1 with
                  | Some (str, r) => Some (String ch str, r)
                  | None => None
                  end
              | None => None
              end
        end
      else if (N_of_ascii c <? 32)%N then None
      else match chars rest with
           | Some (str, r) => Some (String c str, r)
           | None => None
           end
  end.

(** [s] starts with [word]: what follows it. *)
Fixpoint after (word s : string) : option string :=
  match word, s with
  | EmptyString, _ => Some s
  | String a word', String b s' =>
      if Ascii.eqb a b then after word' s' else None
  | String _ _, EmptyString => None
  end.

(** A value at the head of the text and what follows it; the elements of
    an array after its bracket; the members of an object after its brace.
    [fuel] bounds the calls; the length of the text is enough. *)
Fixpoint value_ (fuel : nat) (s : string) : option (value * string) :=
  match fuel with
  | O => None
  | S fuel =>
      match s with
      | EmptyString => None
      | String c rest =>
          if is_char 34 c then
            match chars rest with
            | Some (str, r) => Some (VStr str, r)
            | None => None
            end
          else if is_char 91 c then
            match rest with
            | EmptyString => None
            | String c' r' =>
                if is_char 93 c' then Some (VArr [], r')
                else match elements fuel rest with
                     | Some (vs, r) => Some (VArr vs, r)
                     | None => None
                     end
            end
          else if is_char 123 c then
            match rest with
            | EmptyString => None
            | String c' r' =>
                if is_char 125 c' then Some (VObj [], r')
                else match members fuel rest with
                     | Some (ms, r) => Some (VObj ms, r)
                     | None => None
                     end
            end
          else if digit c || is_char 45 c then
            Some (VNum (span_number s).1, (span_number s).2)
          else
            match after "null" s, after "true" s, after "false" s with
            | Some r, _, _ => Some (VNull, r)
            | _, Some r, _ => Some (VBool true, r)
            | _, _, Some r => Some (VBool false, r)
            | _, _, _ => None
            end
      end
  end
with elements (fuel : nat) (s : string) : option (list value * string) :=
  match fuel with
  | O => None
  | S fuel =>
      match value_ fuel s with
      | Some (v, String c r) =>
          if is_char 44 c then
            match elements fuel r with
            | Some (vs, r') => Some (v :: vs, r')
            | None => None
            end
          else if is_char 93 c then Some ([v], r)
          else None
      | _ => None
      end
  end
with members (fuel : nat) (s : string)
    : option (list (string * value) * string) :=
  match fuel with
  | O => None
  | S fuel =>
      match s with
      | String q rest =>
          if is_char 34 q then
            match chars rest with
            | Some (k, String colon r1) =>
                if is_char 58 colon then
                  match value_ fuel r1 with
                  | Some (v, String c r2) =>
                      if is_char 44 c then
                        match members fuel r2 with
                        | Some (ms, r3) => Some ((k, v) :: ms, r3)
                        | None => None
                        end
                      else if is_char 125 c then Some ([(k, v)], r2)
                      else None
                  | _ => None
                  end
                else None
            | _ => None
            end
          else None
      | EmptyString => None
      end
  end.

(** The value that a whole text stands for. *)
Definition parse (s : string) : option value :=
  match value_ (S (String.length s)) s with
  | Some (v, EmptyString) => Some v
  | _ => None
  end.

End Decode.

(** The texts of the finite numbers: digits, sign, point and exponent,
    starting with a digit or a minus sign. *)
Definition number_text (n : number) : bool :=
  match n with
  | EmptyString => false
  | String c _ =>
      (Decode.digit c || Decode.is_char 45 c) &&
      (fix all (s : string) : bool :=
         match s with
         | EmptyString => true
         | String a rest => Decode.number_char a && all rest
         end) n
  end.

(** The values that JSON text can hold as they are: no [undefined], and
    finite numbers only. *)
Fixpoint json_value (v : value) : bool :=
  match v with
  | VUndefined => false
  | VNull | VBool _ | VStr _ => true
  | VNum n => number_text n
  | VArr items => forallb json_value items
  | VObj props =>
      (fix all (ps : list (string * value)) : bool :=
         match ps with
         | [] => true
         | (_, x) :: rest => json_value x && all rest
         end) props
  end.

(** The object literal of a field error, as the interface gives it. *)
Definition field_error_object (fe : FieldError) : value :=
  VObj [("field", VStr (field fe)); ("message", VStr (fe_message fe))].


(** [e instanceof ResponseError] *)
Definition is_ResponseError (t : thrown) : bool :=
  match t with
  | ThrowResponseError _ => true
  | _ => false
  end.

(** The response to any failure that is not a [ResponseError]. *)
Definition generic_500 : Response :=
  {| status := 500; body := VObj [("message", VStr "Internal Server Error")] |}.

(** A class whose constructor throws an ordinary error. *)
Definition failing_class : Router.RouteClass :=
  λ _ _, Throw (ThrowError {| err_message := "connection refused" |}).

Definition plain_request : Request :=
  {| url := "http://localhost/items"; headers := [];
     req_params := None; req_json := Ok (VObj []) |}.

(** The adapter capability is absent, mis-versioned or not invocable. *)
Definition nonconforming (schema : Schema) : Prop :=
  match standard schema with
  | None => True
  | Some props => version_is_1 (version props) = false ∨ validate props = None
  end.

(** The error thrown for a schema without a usable adapter capability. *)
Definition adapter_contract_error : ResponseError :=
  ValidationError (Some
    (with_message "Schema does not implement StandardSchemaV1")).

Definition version_2_schema : Schema :=
  {| standard := Some {| version := VNum "2";
                         validate := Some (λ v, Ok {| issues := None;
                                                     out_value := v |}) |} |}.

(** The key of a path element. *)
Definition segment_key (seg : PathElement) : PropertyKey :=
  match seg with
  | Bare k | PathSegment k => k
  end.

(** A segment in the words of the specification: a numeric key as [[n]],
    any other key converted to a string (a symbol prints as [Symbol(d)],
    with its description, if any). *)
Definition spec_segment (seg : PathElement) : string :=
  match segment_key seg with
  | KNumber n => "[" ++ n ++ "]"
  | KString s => s
  | KSymbol None => "Symbol()"
  | KSymbol (Some d) => "Symbol(" ++ d ++ ")"
  end.

(** The field string of an issue in the words of the specification: the
    segments joined by a dot, nothing for an empty or absent path. *)
Definition spec_field (p : option (list PathElement)) : string :=
  match p with
  | None => EmptyString
  | Some segs => String.concat "." (map spec_segment segs)
  end.

Definition username_issue : Issue :=
  {| issue_message := Some "Required";
     path := Some [Bare (KString "username")] |}.

Definition root_issue : Issue := {| issue_message := None; path := None |}.

(** A schema that reports two issues whatever the input. *)
Definition rejecting_schema : Schema :=
  {| standard := Some
       {| version := VNum "1";
          validate := Some (λ _, Ok {| issues := Some [username_issue;
                                                       root_issue];
                                      out_value := VUndefined |}) |} |}.

Definition users_post : RouteControllerProps :=
  {| request := plain_request; ctx := VUndefined;
     requiresAuthentication := false;
     inputSchema := Some rejecting_schema;
     validateUUIDs := None; authProvider := None |}.

(** User logic that answers 200 with the validated body. *)
Definition echo : Controller :=
  {| run := λ c, Ok ({| status := 200; body := json c |}, c);
     additionalValidation := default_additionalValidation |}.

Definition weak_password : FieldError :=
  {| field := "password"; fe_message := "Too weak" |}.

Definition missing_username : FieldError :=
  {| field := "username"; fe_message := "Required" |}.

(** A controller with a business rule that always reports one field. *)
Definition strict : Controller :=
  {| run := λ c, Ok ({| status := 200; body := json c |}, c);
     additionalValidation := λ _, Ok (Some [weak_password]) |}.

(** User logic that calls [failWith] and still returns its own response. *)
Definition forbidding : Controller :=
  {| run := λ c, Ok ({| status := 200; body := VObj [] |},
                     snd (failWith (ForbiddenError None) c));
     additionalValidation := default_additionalValidation |}.

(** A schema that accepts every input and returns it. *)
Definition accepting_schema : Schema :=
  {| standard := Some
       {| version := VNum "1";
          validate := Some (λ v, Ok {| issues := None; out_value := v |}) |} |}.

Definition json_request (v : value) : Request :=
  {| url := "http://localhost/users"; headers := [];
     req_params := None; req_json := Ok v |}.

Definition new_user : value := VObj [("username", VStr "ada")].

Definition users_post_ok : RouteControllerProps :=
  {| request := json_request new_user; ctx := VUndefined;
     requiresAuthentication := false;
     inputSchema := Some accepting_schema;
     validateUUIDs := None; authProvider := None |}.

Definition no_schema : RouteControllerProps :=
  {| request := plain_request; ctx := VUndefined;
     requiresAuthentication := false; inputSchema := None;
     validateUUIDs := None; authProvider := None |}.

(** A controller holding a body and a pending error with one field. *)
Definition pending_with_body : BaseController :=
  set_json new_user
    (set_responseError
       (ValidationError (Some (with_fieldErrors [missing_username])))
       (new users_post_ok)).

(** A declared key that the map does not bind to a well-formed UUID. *)
Definition bad_key (params : gmap string string) (key : string) : Prop :=
  ∀ raw, params !! key = Some raw → validateUUID raw = false.

Definition good_key (params : gmap string string) (key : string) : Prop :=
  ∃ raw, params !! key = Some raw ∧ validateUUID raw = true.

(** The authentication stage raises no error: authentication is optional
    and the lookup, if any, returns; or the lookup yields a session. *)
Definition auth_passes (args : RouteControllerProps) : Prop :=
  match authProvider args with
  | None => requiresAuthentication args = false
  | Some provider =>
      ∃ s, getSession provider (headers (request args)) = Ok s ∧
           (requiresAuthentication args = true → truthy s = true)
  end.

Definition not_found_404 : Response :=
  {| status := 404; body := VObj [("message", VStr "Not Found")] |}.

Definition provider_missing_401 : Response :=
  {| status := 401;
     body := VObj [("message",
                    VStr "Authentication provider not configured")] |}.

Definition not_logged_in_401 : Response :=
  {| status := 401;
     body := VObj [("message",
                    VStr "You must be logged in to view this content")] |}.

(** A route that declares a UUID parameter and requires authentication,
    in an application that configured no provider; the request carries a
    malformed identifier. *)
Definition guarded_item (hs : Headers) : RouteControllerProps :=
  {| request := {| url := "http://localhost/items/not-a-uuid"; headers := hs;
                   req_params := Some {[ "id" := "not-a-uuid" ]};
                   req_json := Ok VNull |};
     ctx := VUndefined; requiresAuthentication := true;
     inputSchema := None; validateUUIDs := Some ["id"];
     authProvider := None |}.

(** A provider that finds no session. *)
Definition anonymous : AuthProvider := {| getSession := λ _, Ok VNull |}.

Definition members_only : RouteControllerProps :=
  {| request := plain_request; ctx := VUndefined;
     requiresAuthentication := true; inputSchema := None;
     validateUUIDs := None; authProvider := Some anonymous |}.

(** A route that declares a UUID parameter and requires no
    authentication. *)
Definition open_item (id : string) : RouteControllerProps :=
  {| request := {| url := "http://localhost/items"; headers := [];
                   req_params := Some {[ "id" := id ]};
                   req_json := Ok VNull |};
     ctx := VUndefined; requiresAuthentication := false;
     inputSchema := None; validateUUIDs := Some ["id"];
     authProvider := None |}.

(** The same route when the server attached no [params] object. *)
Definition unrouted_item : RouteControllerProps :=
  {| request := plain_request; ctx := VUndefined;
     requiresAuthentication := false; inputSchema := None;
     validateUUIDs := Some ["id"]; authProvider := None |}.

Definition some_uuid : string := "123e4567-e89b-42d3-a456-426614174000".

(** The pair under which an entry is registered is bound in the table. *)
Definition registered (routes : gmap string (gmap string Router.Handler))
    (d : Router.Discovered) : Prop :=
  is_Some (default ∅ (routes !! Router.path d)
             !! toUpperCase (Router.Method_string (Router.method d))).

(** The error raised for an entry whose pair is already in the table. *)
Definition redefined (d : Router.Discovered) : thrown :=
  ThrowError {| err_message :=
    "Router " ++ Router.Method_string (Router.method d) ++ " " ++
    Router.path d ++ " is redefined" |}.

(** The class exported by every route file of the examples. *)
Definition echo_class : Router.RouteClass :=
  Router.controller_class
    (createController (λ c, Ok ({| status := 200; body := json c |}, c))
       {| validationSchema := None; cfg_validateUUIDs := None;
          cfg_requiresAuthentication := false; cfg_authProvider := None |}
       None).

Definition import_echo (location : string) : result Router.RouteModule :=
  Ok {| Router.default_export := Some echo_class |}.

Definition routes_config : Router.RoutesConfig :=
  {| Router.routesDirectory := "routes"; Router.routePrefix := None;
     Router.rc_authProvider := None; Router.rc_logger := None |}.

Definition items_get (location : string) : Router.Discovered :=
  {| Router.path := "/items"; Router.handler := location;
     Router.method := Router.M_get |}.

(** The pairs bound in a table. *)
Definition table_keys (table : gmap string (gmap string Router.Handler))
    : gmap string (gset string) := dom <$> table.

(** The getter [user] of the controller: [this.session?.user]. *)
Definition user (c : BaseController) : value :=
  match session c with
  | VUndefined | VNull => VUndefined
  | s => default VUndefined (get "user" s)
  end.

(** The table binds the method key [k] under the path [p]. *)
Definition bound (table : gmap string (gmap string Router.Handler))
    (p k : string) : Prop :=
  is_Some (default ∅ (table !! p) !! k).

(** The keys under which an entry is registered. *)
Definition route_key (d : Router.Discovered) : string * string :=
  (Router.path d, toUpperCase (Router.Method_string (Router.method d))).

(** Two separators in a row occur in the string. *)
Fixpoint has_double_slash (s : string) : bool :=
  match s with
  | EmptyString => false
  | String c rest =>
      match rest with
      | String c' _ =>
          ((N_of_ascii c =? 47) && (N_of_ascii c' =? 47))%N
          || has_double_slash rest
      | EmptyString => false
      end
  end.

(** The positions of the hyphens in a UUID. *)
Definition hyphen_positions : list nat := [8; 13; 18; 23]%nat.

(** A provider whose lookup fails. *)
Definition broken_provider : AuthProvider :=
  {| getSession := λ _, Throw (ThrowError {| err_message := "timeout" |}) |}.

(** A session with a user. *)
Definition ada_session : value :=
  VObj [("user", VObj [("id", VStr "123")])].

(** A provider that finds the session of the examples. *)
Definition signed_in : AuthProvider := {| getSession := λ _, Ok ada_session |}.

(** An entry for [POST /items]. *)
Definition items_post (location : string) : Router.Discovered :=
  {| Router.path := "/items"; Router.handler := location;
     Router.method := Router.M_post |}.

(** A loader that fails for every location. *)
Definition import_fails (location : string) : result Router.RouteModule :=
  Throw (ThrowError {| err_message := "Cannot find module" |}).

(** A [NotFoundError] that carries an internal cause. *)
Definition user_not_found : ResponseError :=
  NotFoundError (Some
    {| o_message := Some "User not found"; o_responseCode := None;
       o_data := VUndefined; o_fieldErrors := None;
       o_internalError := Some {| err_message := "no row" |} |}).

(** A class whose pipeline throws a [ResponseError]. *)
Definition throwing_class : Router.RouteClass :=
  λ _ _, Throw (ThrowResponseError user_not_found).

(** A request whose body is not JSON. *)
Definition broken_body : Request :=
  {| url := "http://localhost/users"; headers := [];
     req_params := None;
     req_json := Throw (ThrowError {| err_message := "Unexpected token" |}) |}.

(** The validator of a schema that throws. *)
Definition crashing_validate (input : value) : result Outcome :=
  Throw (ThrowError {| err_message := "Cannot read properties" |}).

Definition crashing_props : StandardProps :=
  {| version := VNum "1"; validate := Some crashing_validate |}.

Definition crashing_schema : Schema := {| standard := Some crashing_props |}.

(** The validator of a schema that returns an empty list of issues beside
    a value. *)
Definition vacuous_validate (input : value) : result Outcome :=
  Ok {| issues := Some []; out_value := input |}.

Definition vacuous_props : StandardProps :=
  {| version := VNum "1"; validate := Some vacuous_validate |}.

Definition vacuous_schema : Schema := {| standard := Some vacuous_props |}.

(** The properties of a controller for [POST /users] with a schema. *)
Definition users_post_with (r : Request) (schema : Schema)
    : RouteControllerProps :=
  {| request := r; ctx := VUndefined; requiresAuthentication := false;
     inputSchema := Some schema; validateUUIDs := None;
     authProvider := None |}.

(** The properties of a controller with a provider and no schema. *)
Definition profile_get (required : bool) (provider : AuthProvider)
    : RouteControllerProps :=
  {| request := plain_request; ctx := VUndefined;
     requiresAuthentication := required; inputSchema := None;
     validateUUIDs := None; authProvider := Some provider |}.

(** The configuration of [createController] for the same controller. *)
Definition profile_config (required : bool) (provider : AuthProvider)
    : ControllerConfig :=
  {| validationSchema := None; cfg_validateUUIDs := None;
     cfg_requiresAuthentication := required;
     cfg_authProvider := Some provider |}.

(** User logic that answers 200 with the user of the session. *)
Definition whoami (c : BaseController) : result (Response * BaseController) :=
  Ok ({| status := 200; body := user c |}, c).

(** A module whose default export is not a class. *)
Definition import_object (location : string) : result Router.RouteModule :=
  Ok {| Router.default_export := None |}.

(** The first character of a string. *)
Definition head_char (s : string) : option ascii :=
  match s with
  | EmptyString => None
  | String c _ => Some c
  end.

(** What may follow a value in a text: not a character of a number. *)
Definition ends_number (rest : string) : Prop :=
  match rest with
  | EmptyString => True
  | String c _ => Decode.number_char c = false
  end.


Definition all_number_chars : string → bool :=
  fix all (s : string) : bool :=
    match s with
    | EmptyString => true
    | String a rest => Decode.number_char a && all rest
    end.


(** The member of an object, as [JSON.stringify] prints it. *)
Definition member_text (kv : string * value) : string :=
  JSON.quote kv.1 ++ ":" ++ JSON.stringify kv.2.


Definition json_members : list (string * value) → bool :=
  fix all (ps : list (string * value)) : bool :=
    match ps with
    | [] => true
    | (_, x) :: rest => json_value x && all rest
    end.


(** An error whose status no response can carry. *)
Definition out_of_range : ResponseError :=
  ConflictError (Some
    {| o_message := None; o_responseCode := Some 1000; o_data := VUndefined;
       o_fieldErrors := None; o_internalError := None |}).

(** User logic that calls [failWith] inside a [try] with an empty [catch]
    and returns its own response. *)
Definition swallowing : Controller :=
  {| run := λ c, Ok ({| status := 200; body := VObj [] |},
                     (failWith out_of_range c).2);
     additionalValidation := default_additionalValidation |}.

(** The logger, if any, returns whatever it is given. *)
Definition logger_returns (logger : option Router.Logger) : Prop :=
  match logger with
  | Some error => ∀ entry, error entry = Ok tt
  | None => True
  end.

(** A logger that returns, and one that throws. *)
Definition quiet_logger : Router.Logger := λ _, Ok tt.

Definition broken_logger : Router.Logger :=
  λ _, Throw (ThrowError {| err_message := "log sink closed" |}).

(** A class whose pipeline throws an error with an unusable status. *)
Definition out_of_range_class : Router.RouteClass :=
  λ _ _, Throw (ThrowResponseError out_of_range).

(** A route that declares the parameter [__proto__], and a request that
    carries a well-formed UUID under that name. *)
Definition proto_item : RouteControllerProps :=
  {| request := {| url := "http://localhost/items"; headers := [];
                   req_params :=
                     Some {[ "__proto__" := some_uuid ]};
                   req_json := Ok VNull |};
     ctx := VUndefined; requiresAuthentication := false;
     inputSchema := None; validateUUIDs := Some ["__proto__"];
     authProvider := None |}.

(** * Properties *)

(** ** Reading back the JSON text *)

Lemma append_cons (x : ascii) (a b : string) :
  String x a ++ b = String x (a ++ b).
Proof. reflexivity. Qed.

Lemma append_nil_l_ (a : string) : EmptyString ++ a = a.
Proof. reflexivity. Qed.

Lemma append_assoc_ (a b c : string) : (a ++ b) ++ c = a ++ (b ++ c).
Proof.
  induction a as [| x a IH]; [reflexivity |].
  rewrite !append_cons, IH. reflexivity.
Qed.

Lemma append_nil_r_ (a : string) : a ++ EmptyString = a.
Proof.
  induction a as [| x a IH]; [reflexivity |].
  rewrite append_cons, IH. reflexivity.
Qed.

Lemma length_append_ (a b : string) :
  String.length (a ++ b) = (String.length a + String.length b)%nat.
Proof.
  induction a as [| x a IH]; [reflexivity |].
  rewrite append_cons. simpl. rewrite IH. reflexivity.
Qed.

(** An escaped character is read back as the character. *)
Lemma chars_escape_char c x :
  Decode.chars (JSON.escape_char c ++ x) =
  match Decode.chars x with
  | Some (str, r) => Some (String c str, r)
  | None => None
  end.
Proof. destruct c as [[] [] [] [] [] [] [] []]; reflexivity. Qed.

Lemma chars_escape s rest :
  Decode.chars (JSON.escape s ++ String (ascii_of_N 34) rest) = Some (s, rest).
Proof.
  induction s as [| c s IH]; [reflexivity |].
  cbn [JSON.escape]. rewrite append_assoc_, chars_escape_char, IH. reflexivity.
Qed.

Lemma span_number_app n rest :
  all_number_chars n = true → ends_number rest →
  Decode.span_number (n ++ rest) = (n, rest).
Proof.
  intros Hn Hrest. induction n as [| c n IH].
  - destruct rest as [| c r]; [reflexivity |]. simpl in *. rewrite Hrest.
    reflexivity.
  - rewrite append_cons. simpl in Hn. apply andb_true_iff in Hn as [Hc Hn].
    cbn [Decode.span_number]. rewrite Hc, (IH Hn). reflexivity.
Qed.

Lemma number_text_finite n : number_text n = true → JSON.non_finite n = false.
Proof.
  intros H. unfold JSON.non_finite.
  destruct (String.eqb_spec n "NaN") as [-> | _]; [discriminate |].
  destruct (String.eqb_spec n "Infinity") as [-> | _]; [discriminate |].
  destruct (String.eqb_spec n "-Infinity") as [-> | _]; [discriminate |].
  reflexivity.
Qed.

(** A number is read back as it was printed. *)
Lemma value_number fuel n rest :
  number_text n = true → ends_number rest →
  Decode.value_ (S fuel) (n ++ rest) = Some (VNum n, rest).
Proof.
  intros Hn Hrest. destruct n as [| c n]; [discriminate |].
  assert (Hspan : Decode.span_number (String c n ++ rest) = (String c n, rest)).
  { apply span_number_app; [| exact Hrest].
    unfold number_text in Hn. apply andb_true_iff in Hn as [_ Hn]. exact Hn. }
  unfold number_text in Hn. apply andb_true_iff in Hn as [Hc _].
  rewrite append_cons in *. cbn [Decode.value_].
  assert (Hq : Decode.is_char 34 c = false ∧ Decode.is_char 91 c = false ∧
               Decode.is_char 123 c = false).
  { revert Hc. clear. destruct c as [[] [] [] [] [] [] [] []];
      intros H; try discriminate H; repeat split. }
  destruct Hq as (-> & -> & ->). rewrite Hc, Hspan. reflexivity.
Qed.

Lemma stringify_object props :
  json_members props = true →
  JSON.stringify (VObj props) =
  "{" ++ String.concat "," (map member_text props) ++ "}".
Proof.
  intros H. cbn [JSON.stringify].
  match goal with
  | |- context [String.concat _ ?l ++ _] =>
      assert (Hm : l = map member_text props)
  end.
  { induction props as [| [k x] props IH]; [reflexivity |].
    simpl in H. apply andb_true_iff in H as [Hx H].
    cbn [map]. rewrite <- (IH H). destruct x; try reflexivity. discriminate. }
  rewrite Hm. reflexivity.
Qed.

Lemma concat_cons_cons sep (x y : string) l :
  String.concat sep (x :: y :: l) = x ++ sep ++ String.concat sep (y :: l).
Proof. reflexivity. Qed.

(** The text of a value that JSON can hold starts neither with a closing
    bracket nor with a closing brace. *)
Lemma stringify_head v :
  json_value v = true →
  ∃ c s, JSON.stringify v = String c s ∧
         Decode.is_char 93 c = false ∧ Decode.is_char 125 c = false.
Proof.
  destruct v as [| | [] | n | s | items | props]; intros H;
    try discriminate H; try (eexists _, _; repeat split; reflexivity).
  - simpl in H. cbn [JSON.stringify]. rewrite (number_text_finite n H).
    destruct n as [| c n]; [discriminate |].
    exists c, n. split; [reflexivity |].
    unfold number_text in H. apply andb_true_iff in H as [Hc _].
    revert Hc. clear. destruct c as [[] [] [] [] [] [] [] []];
      intros H; try discriminate H; split; reflexivity.
Qed.

Lemma stringify_array items :
  JSON.stringify (VArr items) =
  "[" ++ String.concat "," (map JSON.stringify items) ++ "]".
Proof. reflexivity. Qed.

Lemma enclosed_app (a b : ascii) (T rest : string) :
  (String a EmptyString ++ T ++ String b EmptyString) ++ rest =
  String a (T ++ String b rest).
Proof. rewrite !append_assoc_. reflexivity. Qed.

Lemma value_string fuel s rest :
  Decode.value_ (S fuel) (JSON.quote s ++ rest) = Some (VStr s, rest).
Proof.
  unfold JSON.quote. rewrite append_cons, append_assoc_, append_cons.
  change (EmptyString ++ rest) with rest.
  cbn [Decode.value_].
  change (Decode.is_char 34 (ascii_of_N 34)) with true. cbv iota.
  rewrite chars_escape. reflexivity.
Qed.

Lemma value_array fuel (X : string) c r :
  X = String c r → Decode.is_char 93 c = false →
  Decode.value_ (S fuel) (String "[" X) =
  match Decode.elements fuel X with
  | Some (vs, r') => Some (VArr vs, r')
  | None => None
  end.
Proof. intros -> H. cbn [Decode.value_]. rewrite H. reflexivity. Qed.

Lemma value_object fuel (X : string) c r :
  X = String c r → Decode.is_char 125 c = false →
  Decode.value_ (S fuel) (String "{" X) =
  match Decode.members fuel X with
  | Some (ms, r') => Some (VObj ms, r')
  | None => None
  end.
Proof. intros -> H. cbn [Decode.value_]. rewrite H. reflexivity. Qed.

Lemma elements_S fuel s :
  Decode.elements (S fuel) s =
  match Decode.value_ fuel s with
  | Some (v, String c r) =>
      if Decode.is_char 44 c then
        match Decode.elements fuel r with
        | Some (vs, r') => Some (v :: vs, r')
        | None => None
        end
      else if Decode.is_char 93 c then Some ([v], r)
      else None
  | _ => None
  end.
Proof. reflexivity. Qed.

Lemma members_S fuel (k : string) (X : string) :
  Decode.members (S fuel) (JSON.quote k ++ String ":" X) =
  match Decode.value_ fuel X with
  | Some (v, String c r2) =>
      if Decode.is_char 44 c then
        match Decode.members fuel r2 with
        | Some (ms, r3) => Some ((k, v) :: ms, r3)
        | None => None
        end
      else if Decode.is_char 125 c then Some ([(k, v)], r2)
      else None
  | _ => None
  end.
Proof.
  unfold JSON.quote. rewrite append_cons, append_assoc_, append_cons.
  change (EmptyString ++ String ":" X) with (String ":" X).
  cbn [Decode.members].
  change (Decode.is_char 34 (ascii_of_N 34)) with true. cbv iota.
  rewrite chars_escape. reflexivity.
Qed.

Lemma elements_head x xs :
  json_value x = true →
  ∃ c s, String.concat "," (map JSON.stringify (x :: xs)) = String c s ∧
         Decode.is_char 93 c = false.
Proof.
  intros H. destruct (stringify_head x H) as (c & s & Hs & Hc & _).
  destruct xs as [| y ys].
  - exists c, s. split; [exact Hs | exact Hc].
  - cbn [map]. rewrite concat_cons_cons, Hs, append_cons.
    eexists _, _. split; [reflexivity | exact Hc].
Qed.

Lemma members_head kv ps :
  ∃ c s, String.concat "," (map member_text (kv :: ps)) = String c s ∧
         Decode.is_char 125 c = false.
Proof.
  destruct ps as [| y ys].
  - cbn [map String.concat]. unfold member_text, JSON.quote.
    rewrite append_cons. eexists _, _. split; reflexivity.
  - cbn [map]. rewrite concat_cons_cons. unfold member_text at 1, JSON.quote.
    rewrite !append_cons. eexists _, _. split; reflexivity.
Qed.

(** Reading back what [JSON.stringify] printed gives the value, for the
    three readers at once, by induction on the fuel. *)
Lemma read_back fuel :
  (∀ v rest,
     json_value v = true →
     (String.length (JSON.stringify v) < fuel)%nat → ends_number rest →
     Decode.value_ fuel (JSON.stringify v ++ rest) = Some (v, rest)) ∧
  (∀ items rest,
     items ≠ [] → forallb json_value items = true →
     (String.length (String.concat "," (map JSON.stringify items)) + 1
      < fuel)%nat →
     Decode.elements fuel
       (String.concat "," (map JSON.stringify items) ++ String "]" rest) =
     Some (items, rest)) ∧
  (∀ props rest,
     props ≠ [] → json_members props = true →
     (String.length (String.concat "," (map member_text props)) + 1
      < fuel)%nat →
     Decode.members fuel
       (String.concat "," (map member_text props) ++ String "}" rest) =
     Some (props, rest)).
Proof.
  induction fuel as [| fuel (IHv & IHe & IHm)];
    [repeat split; intros; lia |].
  split; [| split].
  - intros v rest Hv Hlen Hrest.
    destruct v as [| | b | n | s | items | props]; try discriminate Hv.
    + reflexivity.
    + destruct b; reflexivity.
    + simpl in Hv. cbn [JSON.stringify]. rewrite (number_text_finite n Hv).
      apply value_number; assumption.
    + apply value_string.
    + destruct items as [| x xs]; [reflexivity |].
      rewrite stringify_array in *. rewrite enclosed_app.
      rewrite !length_append_ in Hlen. cbn [String.length] in Hlen.
      assert (Hx : json_value x = true).
      { simpl in Hv. apply andb_true_iff in Hv as [Hx _]. exact Hx. }
      destruct (elements_head x xs Hx) as (c & s & Hs & Hc).
      rewrite (value_array fuel _ c (s ++ String "]" rest));
        [| rewrite Hs, append_cons; reflexivity | exact Hc].
      rewrite IHe; [reflexivity | discriminate | exact Hv | lia].
    + change (json_members props = true) in Hv.
      destruct props as [| kv ps]; [reflexivity |].
      rewrite (stringify_object _ Hv) in *. rewrite enclosed_app.
      rewrite !length_append_ in Hlen. cbn [String.length] in Hlen.
      destruct (members_head kv ps) as (c & s & Hs & Hc).
      rewrite (value_object fuel _ c (s ++ String "}" rest));
        [| rewrite Hs, append_cons; reflexivity | exact Hc].
      rewrite IHm; [reflexivity | discriminate | exact Hv | lia].
  - intros items rest Hne Hall Hlen.
    destruct items as [| x xs]; [congruence |].
    cbn [forallb] in Hall. apply andb_true_iff in Hall as [Hx Hxs].
    rewrite elements_S. destruct xs as [| y ys].
    + cbn [map String.concat] in *.
      rewrite IHv; [reflexivity | exact Hx | lia | reflexivity].
    + cbn [map] in *. rewrite concat_cons_cons in *.
      rewrite !length_append_ in Hlen. cbn [String.length] in Hlen.
      rewrite !append_assoc_, append_cons.
      change (EmptyString ++ ?x) with x.
      rewrite IHv; [| exact Hx | lia | reflexivity].
      change (Decode.is_char 44 ",") with true. cbv iota.
      change (JSON.stringify y :: map JSON.stringify ys)
        with (map JSON.stringify (y :: ys)).
      rewrite IHe; [reflexivity | discriminate | exact Hxs |].
      cbn [map]. lia.
  - intros props rest Hne Hall Hlen.
    destruct props as [| [k x] ps]; [congruence |].
    simpl in Hall. apply andb_true_iff in Hall as [Hx Hps].
    change (json_members ps = true) in Hps.
    destruct ps as [| kv ps'].
    + cbn [map String.concat] in *. unfold member_text in *. cbn [fst snd] in *.
      rewrite !length_append_ in Hlen. cbn [String.length] in Hlen.
      rewrite !append_assoc_, append_cons.
      change (EmptyString ++ ?x) with x.
      rewrite members_S.
      rewrite IHv; [reflexivity | exact Hx | lia | reflexivity].
    + cbn [map] in *. rewrite concat_cons_cons in *.
      unfold member_text at 1. unfold member_text at 1 in Hlen.
      cbn [fst snd] in *.
      rewrite !length_append_ in Hlen. cbn [String.length] in Hlen.
      rewrite !append_assoc_, !append_cons, !append_nil_l_.
      rewrite members_S.
      rewrite IHv; [| exact Hx | lia | reflexivity].
      change (Decode.is_char 44 ",") with true. cbv iota.
      change (member_text kv :: map member_text ps')
        with (map member_text (kv :: ps')).
      rewrite IHm; [reflexivity | discriminate | exact Hps |].
      cbn [map]. lia.
Qed.

(** [JSON.parse(JSON.stringify(v))] is [v] for a value that JSON holds. *)
Lemma parse_stringify v :
  json_value v = true → Decode.parse (JSON.stringify v) = Some v.
Proof.
  intros H. unfold Decode.parse.
  rewrite <- (append_nil_r_ (JSON.stringify v)) at 2.
  destruct (read_back (S (String.length (JSON.stringify v)))) as (Hv & _).
  rewrite (Hv v EmptyString H); [reflexivity | lia | exact I].
Qed.


(** ** Evaluation on concrete inputs *)

Example toResponse_fields :
  toResponse (ValidationError (Some (with_fieldErrors
    [mkFieldError "email" "Invalid email"]))) =
  Ok {| status := 400;
        body := VObj [("message", VStr "Bad Request");
                      ("fields",
                       VStr ("[{" ++ JSON.quote "field" ++ ":" ++
                             JSON.quote "email" ++ "," ++
                             JSON.quote "message" ++ ":" ++
                             JSON.quote "Invalid email" ++ "}]"))] |}.
Proof. vm_compute. reflexivity. Qed.

Example toResponse_out_of_range :
  toResponse out_of_range =
  Throw (ThrowError {| err_message :=
    "The status provided (1000) must be 101 or in the range of [200, 599]" |}).
Proof. vm_compute. reflexivity. Qed.

Example toResponse_reads_back :
  (r ← toResponse (ConflictError (Some
         {| o_message := None; o_responseCode := None;
            o_data := VObj [("owner", VStr ("a" ++ String (ascii_of_N 34) "b"))];
            o_fieldErrors := Some [mkFieldError "email" "Taken"];
            o_internalError := None |}));
   Ok (status r,
       (get "data" (body r) ≫= λ v,
          match v with VStr txt => Decode.parse txt | _ => None end),
       (get "fields" (body r) ≫= λ v,
          match v with VStr txt => Decode.parse txt | _ => None end))) =
  Ok (409,
      Some (VObj [("owner", VStr ("a" ++ String (ascii_of_N 34) "b"))]),
      Some (VArr [VObj [("field", VStr "email");
                        ("message", VStr "Taken")]])).
Proof. vm_compute. reflexivity. Qed.

Example parse_escaped_text :
  Decode.parse (JSON.stringify
    (VObj [("note", VStr ("a" ++ String (ascii_of_N 34) "b"));
           ("tags", VArr [VNum "1.5"; VNull; VBool true])])) =
  Some (VObj [("note", VStr ("a" ++ String (ascii_of_N 34) "b"));
              ("tags", VArr [VNum "1.5"; VNull; VBool true])]).
Proof. vm_compute. reflexivity. Qed.

Example validateUUID_ok :
  validateUUID "123e4567-e89b-42d3-a456-426614174000" = true.
Proof. reflexivity. Qed.

Example validateUUID_version_0 :
  validateUUID "123e4567-e89b-02d3-a456-426614174000" = false.
Proof. reflexivity. Qed.

Example validateUUID_not_a_uuid : validateUUID "not-a-uuid" = false.
Proof. reflexivity. Qed.

Example validateUUID_trailing :
  validateUUID "123e4567-e89b-42d3-a456-426614174000x" = false.
Proof. reflexivity. Qed.

Example formatPath_mixed :
  formatPath (Some [Bare (KString "items"); Bare (KNumber "2");
                    PathSegment (KString "sku")]) = "items.[2].sku".
Proof. reflexivity. Qed.

Example formatPath_symbol_and_double :
  formatPath (Some [PathSegment (KSymbol (Some "id")); Bare (KNumber "1e+21");
                    Bare (KSymbol None); Bare (KNumber "1.5")]) =
  "Symbol(id).[1e+21].Symbol().[1.5]".
Proof. reflexivity. Qed.

Example discover_users_post :
  Router.discover "routes" "/api" "Users/POST.ts" =
  Some {| Router.path := "/api/users";
          Router.handler := "routes/Users/POST.ts";
          Router.method := Router.M_post |}.
Proof. reflexivity. Qed.

Example discover_root :
  Router.discover "routes" EmptyString "get.js" =
  Some {| Router.path := "/"; Router.handler := "routes/get.js";
          Router.method := Router.M_get |}.
Proof. reflexivity. Qed.

Example join_normalises :
  Router.join "./routes/" "users//../Items/./GET.ts" = "routes/Items/GET.ts" ∧
  Router.join "/srv/app/routes" "get.ts" = "/srv/app/routes/get.ts" ∧
  Router.join "../routes" "a/../../b/get.ts" = "../b/get.ts" ∧
  Router.join EmptyString "get.ts" = "get.ts".
Proof. repeat split. Qed.

Example discover_other :
  Router.discover "routes" EmptyString "users/util.ts" = None.
Proof. reflexivity. Qed.

(** ** The error model *)

(** Rendering succeeds exactly for a status that a response accepts. *)
Lemma toResponse_valid e :
  valid_status (responseCode e) = true → ∃ r, toResponse e = Ok r.
Proof.
  intros H. unfold toResponse, Response_json. rewrite H. eexists. reflexivity.
Qed.

Lemma toResponse_invalid e :
  valid_status (responseCode e) = false →
  toResponse e = Throw (ThrowError (status_RangeError (responseCode e))).
Proof. intros H. unfold toResponse, Response_json. rewrite H. reflexivity. Qed.

(** The status and the properties of a rendered body. *)
Lemma toResponse_Ok e r :
  toResponse e = Ok r →
  status r = responseCode e ∧
  get "message" (body r) = Some (VStr (message e)) ∧
  get "data" (body r) =
    (if truthy (data e) then Some (VStr (JSON.stringify (data e))) else None) ∧
  get "fields" (body r) =
    ((λ fes, VStr (JSON.stringify (VArr (map FieldError_value fes)))) <$>
       fieldErrors e) ∧
  (∀ k v, get k (body r) = Some v →
     k = "message" ∨ k = "data" ∨ k = "fields").
Proof.
  unfold toResponse, Response_json.
  destruct (valid_status (responseCode e)); [| discriminate].
  intros [= <-].
  destruct (truthy (data e)), (fieldErrors e); simpl; repeat split;
    intros k v H;
    destruct (String.eqb_spec k "message"); try tauto;
    destruct (String.eqb_spec k "data"); try tauto;
    destruct (String.eqb_spec k "fields"); try tauto; discriminate.
Qed.

Lemma is_object_truthy v : is_object v = true → truthy v = true.
Proof. destruct v; simpl; congruence. Qed.

(** The text of the field errors reads back as the array of their
    [{ field, message }] objects. *)
Lemma fields_text fes :
  Decode.parse (JSON.stringify (VArr (map FieldError_value fes))) =
  Some (VArr (map field_error_object fes)).
Proof.
  rewrite parse_stringify; [reflexivity |].
  cbn [json_value]. induction fes as [| fe fes IH]; [reflexivity | exact IH].
Qed.

(** C5, as stated, fails in two ways.  An error whose status a response
    does not accept has no rendering: [toResponse] throws a [RangeError], and
    so does the handler of a route whose pipeline threw that error.  And an
    ordinary error thrown inside the handler of a route is not turned into
    the generic 500 response when the logger throws. *)
Lemma unrenderable_error_and_failing_logger :
  toResponse out_of_range = Throw (ThrowError (status_RangeError 1000)) ∧
  (Router.route_handler None None out_of_range_class "/items" "GET"
     plain_request).1 = Throw (ThrowError (status_RangeError 1000)) ∧
  (Router.route_handler None (Some broken_logger) failing_class "/items" "GET"
     plain_request).1 =
  Throw (ThrowError {| err_message := "log sink closed" |}).
Proof. repeat split. Qed.

(** C5, amended: a [ResponseError] whose status is 101 or lies between 200
    and 599 renders with that status and a body holding [message], [data]
    only when data is set and [fields] only when field errors are set; the
    two are strings that read back, as JSON text, as the data and as the
    array of [{ field, message }] objects.  For any other status the
    rendering throws.  Whatever else is thrown inside the handler of a
    route becomes the generic 500 response, which does not depend on what
    was thrown, provided that the logger, if any, returns. *)
Theorem error_rendering_and_boundary :
  (∀ e : ResponseError,
     valid_status (responseCode e) = true →
     ∃ r, toResponse e = Ok r ∧
       status r = responseCode e ∧
       get "message" (body r) = Some (VStr (message e)) ∧
       (∀ v, get "data" (body r) = Some v →
          truthy (data e) = true ∧
          ∃ txt, v = VStr txt ∧
            (json_value (data e) = true →
             Decode.parse txt = Some (data e))) ∧
       (is_object (data e) = true →
          ∃ txt, get "data" (body r) = Some (VStr txt) ∧
            (json_value (data e) = true →
             Decode.parse txt = Some (data e))) ∧
       (data e = VUndefined → get "data" (body r) = None) ∧
       (∀ fes, fieldErrors e = Some fes →
          ∃ txt, get "fields" (body r) = Some (VStr txt) ∧
            Decode.parse txt = Some (VArr (map field_error_object fes))) ∧
       (fieldErrors e = None → get "fields" (body r) = None) ∧
       (∀ k v, get k (body r) = Some v →
          k = "message" ∨ k = "data" ∨ k = "fields")) ∧
  (∀ e : ResponseError,
     valid_status (responseCode e) = false →
     toResponse e = Throw (ThrowError (status_RangeError (responseCode e)))) ∧
  (∀ authProvider logger Ctor key method request t,
     Router.attempt authProvider Ctor request = Throw t →
     is_ResponseError t = false →
     logger_returns logger →
     (Router.route_handler authProvider logger Ctor key method request).1
     = Ok generic_500).
Proof.
  split; [| split].
  - intros e Hs. destruct (toResponse_valid e Hs) as [r Hr].
    destruct (toResponse_Ok e r Hr) as (Hst & Hm & Hd & Hf & Hk).
    exists r. repeat split; try assumption.
    + rewrite Hd in H. destruct (truthy (data e)); congruence.
    + rewrite Hd in H. destruct (truthy (data e)); [| discriminate].
      injection H as <-. eexists. split; [reflexivity |].
      apply parse_stringify.
    + intros Hobj. rewrite Hd, (is_object_truthy _ Hobj).
      eexists. split; [reflexivity |]. apply parse_stringify.
    + intros Hu. rewrite Hd, Hu. reflexivity.
    + intros fes Hfes. rewrite Hf, Hfes. eexists.
      split; [reflexivity |]. apply fields_text.
    + intros Hn. rewrite Hf, Hn. reflexivity.
  - apply toResponse_invalid.
  - intros authProvider logger Ctor key method request t Ht Hk Hlog.
    unfold Router.route_handler. rewrite Ht.
    destruct t as [e | e | v]; [discriminate | |];
      (destruct logger as [error |];
       [cbn; rewrite (Hlog _); reflexivity | reflexivity]).
Qed.

Lemma error_rendering_and_boundary_witness :
  (∃ r, toResponse user_not_found = Ok r ∧ status r = 404) ∧
  (Router.route_handler None (Some quiet_logger) failing_class "/items" "GET"
     plain_request).1 = Ok generic_500.
Proof.
  split.
  - destruct (proj1 error_rendering_and_boundary user_not_found eq_refl)
      as (r & Hr & Hs & _).
    exists r. split; [exact Hr | exact Hs].
  - apply (proj2 (proj2 error_rendering_and_boundary) None (Some quiet_logger)
             failing_class "/items" "GET" plain_request
             (ThrowError {| err_message := "connection refused" |}));
      [reflexivity | reflexivity | intros entry; reflexivity].
Defined.

(** ** The schema adapter *)

(** C7, as stated, fails on a schema without the adapter property: the
    error carries another message than the one claimed. *)
Lemma adapter_message_differs :
  ∃ e, parseStandardSchema VNull {| standard := None |} =
       Throw (ThrowResponseError e) ∧
       message e ≠ "Schema does not implement the expected adapter contract".
Proof. eexists. split; [reflexivity | discriminate]. Qed.

(** C7 (amended): a schema whose adapter capability is absent,
    mis-versioned or not invocable makes the adapter throw, whatever the
    input and without calling the validator, a Validation error (status
    400) with the message "Schema does not implement StandardSchemaV1" and
    no field errors. *)
Theorem parseStandardSchema_nonconforming (input : value) (schema : Schema) :
  nonconforming schema →
  parseStandardSchema input schema =
    Throw (ThrowResponseError adapter_contract_error) ∧
  name adapter_contract_error = "ValidationError" ∧
  responseCode adapter_contract_error = 400 ∧
  message adapter_contract_error =
    "Schema does not implement StandardSchemaV1" ∧
  fieldErrors adapter_contract_error = None.
Proof.
  intros Hn. split; [| repeat split].
  unfold parseStandardSchema, nonconforming in *.
  destruct (standard schema) as [props |]; [| reflexivity].
  destruct Hn as [Hv | Hf].
  - rewrite Hv. reflexivity.
  - rewrite Hf. destruct (version_is_1 (version props)); reflexivity.
Qed.

Lemma parseStandardSchema_nonconforming_witness :
  parseStandardSchema (VObj []) version_2_schema =
    Throw (ThrowResponseError adapter_contract_error) ∧
  name adapter_contract_error = "ValidationError" ∧
  responseCode adapter_contract_error = 400 ∧
  message adapter_contract_error =
    "Schema does not implement StandardSchemaV1" ∧
  fieldErrors adapter_contract_error = None.
Proof.
  apply (parseStandardSchema_nonconforming (VObj []) version_2_schema).
  simpl. left. reflexivity.
Defined.

Lemma formatSegment_spec seg : formatSegment seg = spec_segment seg.
Proof. destruct seg as [[s | n | [d |]] | [s | n | [d |]]]; reflexivity. Qed.

Lemma formatPath_spec p : formatPath p = spec_field p.
Proof.
  destruct p as [[| seg segs] |]; try reflexivity.
  unfold formatPath, spec_field. f_equal.
  apply map_ext. intros; apply formatSegment_spec.
Qed.

Lemma mapIssues_length iss : length (mapIssues iss) = length iss.
Proof. unfold mapIssues. apply length_map. Qed.

Lemma mapIssues_lookup iss (i : nat) issue :
  iss !! i = Some issue →
  mapIssues iss !! i =
    Some {| field := formatPath (path issue);
            fe_message := default "Invalid" (issue_message issue) |}.
Proof. intros H. unfold mapIssues. rewrite list_lookup_fmap, H. reflexivity. Qed.

(** The adapter on a conforming schema whose validator reports issues. *)
Lemma parseStandardSchema_issues input schema props vf resolved iss :
  standard schema = Some props →
  version_is_1 (version props) = true →
  validate props = Some vf →
  vf input = Ok resolved →
  issues resolved = Some iss →
  parseStandardSchema input schema =
    Throw (ThrowResponseError
             (ValidationError (Some (with_fieldErrors (mapIssues iss))))).
Proof.
  intros Hs Hv Hf Hr Hi. unfold parseStandardSchema.
  rewrite Hs, Hv, Hf. simpl. rewrite Hr. simpl. rewrite Hi. reflexivity.
Qed.

(** ** The stages *)

Lemma _validateUUIDs_total c : ∃ c', _validateUUIDs c = Ok c'.
Proof.
  unfold _validateUUIDs.
  destruct (validateUUIDs (props c)); [| eauto].
  destruct (req_params (request (props c))); [| eauto].
  destruct (validate_keys _ _ _); eauto.
Qed.

(** Parameter validation touches [params] and [responseError] only. *)
Lemma _validateUUIDs_frame c c' :
  _validateUUIDs c = Ok c' →
  props c' = props c ∧ json c' = json c ∧ session c' = session c ∧
  ctx_session c' = ctx_session c.
Proof.
  unfold _validateUUIDs.
  destruct (validateUUIDs (props c)); [| intros [= <-]; done].
  destruct (req_params (request (props c))); [| intros [= <-]; done].
  destruct (validate_keys _ _ _); intros [= <-]; done.
Qed.

(** Authentication touches the session and [responseError] only. *)
Lemma _checkAuthStatus_frame c c' :
  _checkAuthStatus c = Ok c' →
  props c' = props c ∧ json c' = json c ∧ params c' = params c.
Proof.
  unfold _checkAuthStatus.
  destruct (authProvider (props c)) as [provider |].
  - destruct (getSession provider _) as [s |]; simpl; [| discriminate].
    destruct (requiresAuthentication (props c) && negb (truthy s));
      intros [= <-]; done.
  - destruct (requiresAuthentication (props c)); intros [= <-]; done.
Qed.

(** Authentication either keeps the pending error or sets its own. *)
Lemma _checkAuthStatus_error c c' :
  _checkAuthStatus c = Ok c' →
  responseError c' = responseError c ∨
  (requiresAuthentication (props c) = true ∧
   ∃ m, responseError c' = Some (UnauthorizedError (Some (with_message m)))).
Proof.
  unfold _checkAuthStatus.
  destruct (authProvider (props c)) as [provider |].
  - destruct (getSession provider _) as [s |]; simpl; [| discriminate].
    destruct (requiresAuthentication (props c)); simpl.
    + destruct (truthy s); simpl; intros [= <-]; eauto.
    + intros [= <-]; eauto.
  - destruct (requiresAuthentication (props c)); intros [= <-]; eauto.
Qed.

(** Body validation is skipped while an error is pending. *)
Lemma _validateJSONInput_pending c e :
  responseError c = Some e → _validateJSONInput c = Ok c.
Proof.
  intros H. unfold _validateJSONInput. rewrite H.
  destruct (inputSchema (props c)); reflexivity.
Qed.

Lemma _validateJSONInput_no_schema c :
  inputSchema (props c) = None → _validateJSONInput c = Ok c.
Proof. intros H. unfold _validateJSONInput. rewrite H. reflexivity. Qed.

(** What body validation catches is replaced by a Validation error that
    does not depend on what was thrown. *)
Lemma _validateJSONInput_hides_cause c schema t :
  inputSchema (props c) = Some schema →
  responseError c = None →
  (req_json (request (props c)) = Throw t →
   _validateJSONInput c =
     Ok (set_responseError
           (ValidationError (Some (with_message "Invalid JSON body provided")))
           c)) ∧
  (∀ input,
     req_json (request (props c)) = Ok input →
     parseStandardSchema input schema = Throw t →
     is_ResponseError t = false →
     _validateJSONInput c =
       Ok (set_responseError
             (ValidationError (Some (with_message "Invalid input"))) c)).
Proof.
  intros Hschema Hnone. unfold _validateJSONInput. rewrite Hschema, Hnone.
  split.
  - intros ->. reflexivity.
  - intros input -> -> Ht. destruct t; [discriminate | reflexivity ..].
Qed.

(** Body validation never throws; it leaves either a body and no new
    error, or an error and the body as it was. *)
Lemma _validateJSONInput_cases c :
  ∃ c', _validateJSONInput c = Ok c' ∧ props c' = props c ∧
        params c' = params c ∧
        ((responseError c' = responseError c ∧
          (json c' = json c ∨ responseError c = None)) ∨
         (responseError c = None ∧ json c' = json c ∧
          ∃ e, responseError c' = Some e)).
Proof.
  unfold _validateJSONInput.
  destruct (inputSchema (props c)) as [schema |]; [| eauto 10].
  destruct (responseError c) as [e |] eqn:He; [rewrite <- He; eauto 10 |].
  destruct (req_json (request (props c))) as [input |].
  - destruct (parseStandardSchema input schema) as [out | [e | e | v]]; simpl;
      eexists; (split; [reflexivity |]); simpl; rewrite ?He; eauto 10.
  - eexists; split; [reflexivity |]; simpl; eauto 10.
Qed.

Section PipelineFacts.

Context {impl : Controller}.

(** Extra validation is skipped when there is no validated body. *)
Lemma _additionalValidation_skipped c :
  json c = VUndefined → _additionalValidation c = Ok c.
Proof. intros H. unfold _additionalValidation. rewrite H. reflexivity. Qed.

(** Dispatch renders a pending error without running the user logic. *)
Lemma respond_pending c e :
  responseError c = Some e → respond c = toResponse e.
Proof. intros H. unfold respond. rewrite H. reflexivity. Qed.

Lemma init_unfold c :
  init c =
  ((_validateUUIDs c ≫= _checkAuthStatus) ≫= _validateJSONInput)
    ≫= _additionalValidation.
Proof.
  unfold init. destruct (_validateUUIDs c) as [c1 |]; [| reflexivity]; simpl.
  destruct (_checkAuthStatus c1) as [c2 |]; [| reflexivity]; simpl.
  destruct (_validateJSONInput c2) as [c3 |]; reflexivity.
Qed.

(** From the first two stages on, an error pending on a controller
    without a validated body is the one that is rendered. *)
Lemma pending_after_auth c c2 e :
  json c = VUndefined →
  _validateUUIDs c ≫= _checkAuthStatus = Ok c2 →
  responseError c2 = Some e →
  init c = Ok c2 ∧ invoke c = toResponse e.
Proof.
  intros Hj H12 He.
  assert (Hinit : init c = Ok c2).
  { rewrite init_unfold, H12. simpl.
    rewrite (_validateJSONInput_pending _ _ He). simpl.
    apply _additionalValidation_skipped.
    destruct (_validateUUIDs c) as [c1 |] eqn:H1; [| discriminate].
    simpl in H12.
    destruct (_validateUUIDs_frame _ _ H1) as (_ & Hj1 & _).
    destruct (_checkAuthStatus_frame _ _ H12) as (_ & Hj2 & _).
    congruence. }
  split; [exact Hinit |].
  unfold invoke. rewrite Hinit. simpl. apply respond_pending, He.
Qed.

End PipelineFacts.

(** ** Extra validation, the validated body and dispatch *)

(** What extra validation leaves on a controller that holds a body. *)
Lemma _additionalValidation_body {impl : Controller} (c : BaseController)
    (r : option (list FieldError)) :
  json c ≠ VUndefined →
  additionalValidation (json c) = Ok r →
  ∃ c', _additionalValidation c = Ok c' ∧ json c' = json c ∧
    (∀ e, responseError c = Some e →
       ∃ e', responseError c' = Some e' ∧
             name e' = name e ∧ message e' = message e ∧
             responseCode e' = responseCode e ∧ data e' = data e ∧
             default [] (fieldErrors e') =
               (default [] (fieldErrors e) ++ default [] r)%list) ∧
    (responseError c = None →
       match default [] r with
       | [] => responseError c' = None
       | extra =>
           responseError c' =
             Some (with_fields extra (ValidationError None))
       end).
Proof.
  intros Hj Hr. unfold _additionalValidation.
  destruct (json c) eqn:Ej; try congruence; simpl; rewrite Hr; simpl.
  all: destruct (responseError c) as [e |] eqn:He; simpl.
  all: destruct r as [[| x0 extra0] |]; simpl.
  all: try destruct (fieldErrors e) as [[| fe0 base0] |] eqn:Hf; simpl.
  all: eexists; (split; [reflexivity |]); simpl; rewrite ?Ej, ?He.
  all: (split; [reflexivity |]); split; try discriminate; try reflexivity.
  all: intros e0 [= <-]; eexists; (split; [reflexivity |]); simpl.
  all: rewrite ?Hf; simpl; rewrite ?app_nil_r; done.
Qed.



Example extra_validation_appends_order :
  (c ← @_additionalValidation strict pending_with_body;
   Ok (responseError c ≫= fieldErrors)) =
  Ok (Some [missing_username; weak_password]).
Proof. reflexivity. Qed.

(** Extra validation keeps a pending error, up to field errors put after
    its own. *)
Lemma _additionalValidation_pending {impl : Controller}
    (c c' : BaseController) e :
  responseError c = Some e →
  _additionalValidation c = Ok c' →
  ∃ e' extra, responseError c' = Some e' ∧
    name e' = name e ∧ message e' = message e ∧
    responseCode e' = responseCode e ∧ data e' = data e ∧
    default [] (fieldErrors e') = (default [] (fieldErrors e) ++ extra)%list.
Proof.
  intros He H4.
  assert (Hdec : json c = VUndefined ∨ json c ≠ VUndefined)
    by (destruct (json c); (left; reflexivity) || (right; discriminate)).
  destruct Hdec as [Hj | Hj].
  - rewrite (_additionalValidation_skipped c Hj) in H4.
    injection H4 as <-. exists e, []. rewrite app_nil_r. done.
  - destruct (additionalValidation (json c)) as [r | t] eqn:Hr.
    + destruct (_additionalValidation_body c r Hj Hr)
        as (c'' & H4' & _ & Hpend & _).
      rewrite H4' in H4. injection H4 as <-.
      destruct (Hpend e He) as (e' & ? & ? & ? & ? & ? & ?).
      exists e', (default [] r). done.
    + unfold _additionalValidation in H4.
      destruct (json c); try congruence; simpl in H4; rewrite Hr in H4;
        discriminate.
Qed.



Example echo_round_trip :
  @invoke echo (new users_post_ok) = Ok {| status := 200; body := new_user |}.
Proof. reflexivity. Qed.

(** Dispatch after user logic that returned a response while an error is
    pending. *)
Lemma invoke_pending_after_run {impl : Controller}
    (c0 c c' : BaseController) (resp : Response) (e : ResponseError) :
  init c0 = Ok c →
  responseError c = None →
  run c = Ok (resp, c') →
  responseError c' = Some e →
  invoke c0 = toResponse e.
Proof.
  intros Hinit Hnone Hrun He.
  unfold invoke. rewrite Hinit. simpl. unfold respond.
  rewrite Hnone, Hrun. simpl. rewrite He. reflexivity.
Qed.

(** C10, as stated, fails for an error that cannot be rendered: the user
    logic calls [failWith] with an error whose status no response accepts,
    discards what the call throws and returns a response; the error is
    pending, and the invocation returns nothing: it throws the
    [RangeError] of the rendering. *)
Lemma failWith_rendering_can_throw :
  ∃ c resp,
    @init swallowing (new no_schema) = Ok c ∧
    responseError c = None ∧
    @run swallowing c = Ok (resp, (failWith out_of_range c).2) ∧
    responseError (failWith out_of_range c).2 = Some out_of_range ∧
    (failWith out_of_range c).1 =
      Throw (ThrowError (status_RangeError 1000)) ∧
    @invoke swallowing (new no_schema) =
      Throw (ThrowError (status_RangeError 1000)) ∧
    ¬ ∃ r, @invoke swallowing (new no_schema) = Ok r.
Proof.
  eexists _, _. repeat split. intros [r H]. discriminate H.
Qed.

(** C10 (amended): [failWith] leaves its error pending on the controller
    even when its rendering throws, and when the user logic returns a
    response while an error is pending, the outcome of the invocation is
    that of rendering the error, whatever the response was: the rendering,
    with the status of the error, when that status is 101 or lies between
    200 and 599, and the [RangeError] of the rendering for any other
    status. *)
Theorem failWith_overrides_returned_response {impl : Controller}
    (c0 c c' : BaseController) (resp : Response) (e : ResponseError) :
  init c0 = Ok c →
  responseError c = None →
  run c = Ok (resp, c') →
  responseError c' = Some e →
  invoke c0 = toResponse e ∧
  (valid_status (responseCode e) = true →
     ∃ r, invoke c0 = Ok r ∧ toResponse e = Ok r ∧
          status r = responseCode e ∧
          get "message" (body r) = Some (VStr (message e))) ∧
  (valid_status (responseCode e) = false →
     invoke c0 = Throw (ThrowError (status_RangeError (responseCode e)))) ∧
  (∀ c1, responseError (failWith e c1).2 = Some e ∧
         (failWith e c1).1 = toResponse e).
Proof.
  intros Hinit Hnone Hrun He.
  pose proof (invoke_pending_after_run c0 c c' resp e Hinit Hnone Hrun He)
    as Hinv.
  split; [exact Hinv |]. split; [| split].
  - intros Hs. destruct (toResponse_valid e Hs) as [r Hr].
    destruct (toResponse_Ok e r Hr) as (Hst & Hm & _).
    exists r. rewrite Hinv. done.
  - intros Hs. rewrite Hinv. apply toResponse_invalid, Hs.
  - intros c1. split; reflexivity.
Qed.

Lemma failWith_overrides_returned_response_witness :
  @invoke forbidding (new no_schema) = toResponse (ForbiddenError None) ∧
  (valid_status (responseCode (ForbiddenError None)) = true →
     ∃ r, @invoke forbidding (new no_schema) = Ok r ∧
          toResponse (ForbiddenError None) = Ok r ∧
          status r = responseCode (ForbiddenError None) ∧
          get "message" (body r) =
            Some (VStr (message (ForbiddenError None)))) ∧
  (valid_status (responseCode (ForbiddenError None)) = false →
     @invoke forbidding (new no_schema) =
       Throw (ThrowError
                (status_RangeError (responseCode (ForbiddenError None))))) ∧
  (∀ c1, responseError (failWith (ForbiddenError None) c1).2 =
           Some (ForbiddenError None) ∧
         (failWith (ForbiddenError None) c1).1 =
           toResponse (ForbiddenError None)).
Proof.
  apply (@failWith_overrides_returned_response forbidding (new no_schema)
           (set_params ∅ (new no_schema))
           (failWith (ForbiddenError None) (set_params ∅ (new no_schema))).2
           {| status := 200; body := VObj [] |} (ForbiddenError None));
    reflexivity.
Defined.

Example forbidding_answers_403 :
  @invoke forbidding (new no_schema) =
  Ok {| status := 403; body := VObj [("message", VStr "Forbidden")] |}.
Proof. reflexivity. Qed.

(** ** Issues and field errors *)

(** C3: when the validator of the declared schema reports N >= 1 issues,
    body validation leaves exactly one pending error, a Validation error
    (status 400) whose field errors are N entries in the order of the
    issues; the field of each entry is the dot-join of the path segments of
    its issue, numeric segments as [[n]], the empty string for an empty or
    absent path; this is the error the stage puts on the controller, and
    the rest of the pipeline responds with its rendering, a 400 response
    whose [fields] text reads back as these N entries. *)
Theorem issues_become_field_errors (impl : Controller)
    (c : BaseController) (schema : Schema) (sp : StandardProps)
    (vf : value → result Outcome) (input : value) (resolved : Outcome)
    (iss : list Issue) :
  inputSchema (props c) = Some schema →
  responseError c = None →
  json c = VUndefined →
  req_json (request (props c)) = Ok input →
  standard schema = Some sp →
  version_is_1 (version sp) = true →
  validate sp = Some vf →
  vf input = Ok resolved →
  issues resolved = Some iss →
  (1 ≤ length iss)%nat →
  ∃ e fes,
    parseStandardSchema input schema = Throw (ThrowResponseError e) ∧
    _validateJSONInput c = Ok (set_responseError e c) ∧
    (c3 ← _validateJSONInput c; c4 ← _additionalValidation c3; respond c4)
      = toResponse e ∧
    (∃ r txt, toResponse e = Ok r ∧ status r = 400 ∧
       get "fields" (body r) = Some (VStr txt) ∧
       Decode.parse txt = Some (VArr (map field_error_object fes))) ∧
    name e = "ValidationError" ∧ responseCode e = 400 ∧
    fieldErrors e = Some fes ∧
    length fes = length iss ∧
    (∀ (i : nat) issue, iss !! i = Some issue →
       ∃ fe, fes !! i = Some fe ∧
             field fe = spec_field (path issue) ∧
             fe_message fe = default "Invalid" (issue_message issue)).
Proof.
  intros Hschema Hnone Hundef Hjson Hs Hv Hf Hr Hi _.
  pose proof (parseStandardSchema_issues _ _ _ _ _ _ Hs Hv Hf Hr Hi) as Hp.
  assert (H3 : _validateJSONInput c =
               Ok (set_responseError
                     (ValidationError (Some (with_fieldErrors (mapIssues iss))))
                     c)).
  { unfold _validateJSONInput. rewrite Hschema, Hnone, Hjson, Hp. reflexivity. }
  eexists _, (mapIssues iss). split; [exact Hp |].
  split; [exact H3 |]. split.
  { rewrite H3. simpl.
    rewrite _additionalValidation_skipped by exact Hundef. reflexivity. }
  split.
  { eexists _, _. split; [reflexivity |]. split; [reflexivity |].
    split; [reflexivity | apply fields_text]. }
  repeat split.
  - apply mapIssues_length.
  - intros i issue Hl. eexists. split; [apply mapIssues_lookup, Hl |].
    simpl. split; [apply formatPath_spec | reflexivity].
Qed.

Lemma issues_become_field_errors_witness :
  ∃ e fes,
    parseStandardSchema (VObj []) rejecting_schema =
      Throw (ThrowResponseError e) ∧
    _validateJSONInput (new users_post) =
      Ok (set_responseError e (new users_post)) ∧
    (c3 ← _validateJSONInput (new users_post);
     c4 ← @_additionalValidation echo c3; @respond echo c4)
      = toResponse e ∧
    (∃ r txt, toResponse e = Ok r ∧ status r = 400 ∧
       get "fields" (body r) = Some (VStr txt) ∧
       Decode.parse txt = Some (VArr (map field_error_object fes))) ∧
    name e = "ValidationError" ∧ responseCode e = 400 ∧
    fieldErrors e = Some fes ∧
    length fes = 2%nat ∧
    (∀ (i : nat) issue, [username_issue; root_issue] !! i = Some issue →
       ∃ fe, fes !! i = Some fe ∧
             field fe = spec_field (path issue) ∧
             fe_message fe = default "Invalid" (issue_message issue)).
Proof.
  apply (issues_become_field_errors echo (new users_post) rejecting_schema
           {| version := VNum "1";
              validate := Some (λ _, Ok {| issues := Some [username_issue;
                                                           root_issue];
                                          out_value := VUndefined |}) |}
           (λ _, Ok {| issues := Some [username_issue; root_issue];
                       out_value := VUndefined |})
           (VObj [])
           {| issues := Some [username_issue; root_issue];
              out_value := VUndefined |}
           [username_issue; root_issue]);
    try reflexivity.
  simpl. lia.
Defined.

Example rejecting_schema_fields :
  parseStandardSchema (VObj []) rejecting_schema =
  Throw (ThrowResponseError (ValidationError (Some (with_fieldErrors
    [{| field := "username"; fe_message := "Required" |};
     {| field := EmptyString; fe_message := "Invalid" |}])))).
Proof. reflexivity. Qed.

(** ** Parameter validation *)

Lemma validateUUID_nonempty raw :
  validateUUID raw = true → truthy (VStr raw) = true.
Proof. destruct raw; [discriminate | reflexivity]. Qed.

Lemma validate_keys_bad params keys acc key :
  key ∈ keys → bad_key params key → validate_keys params keys acc = None.
Proof.
  revert acc. induction keys as [| k rest IH]; intros acc Hin Hbad.
  - inversion Hin.
  - cbn [validate_keys].
    destruct (params !! k) as [raw |] eqn:Hk; [| reflexivity].
    destruct (truthy (VStr raw)); cbn [negb]; [| reflexivity].
    destruct (validateUUID raw) eqn:Hv; [| reflexivity].
    apply elem_of_cons in Hin as [-> | Hin].
    + rewrite (Hbad raw Hk) in Hv. discriminate.
    + apply IH; assumption.
Qed.

(** [assign] binds the key, unless it is [__proto__], and nothing else. *)
Lemma lookup_assign key raw acc k :
  assign key raw acc !! k =
  if decide (k = key ∧ key ≠ "__proto__") then Some raw else acc !! k.
Proof.
  unfold assign. destruct (String.eqb_spec key "__proto__") as [-> | Hne].
  - destruct (decide _) as [[_ H] |]; [congruence | reflexivity].
  - destruct (decide _) as [[-> _] | Hn].
    + apply lookup_insert_eq.
    + apply lookup_insert_ne. intros <-. apply Hn. done.
Qed.

Lemma dom_assign key raw acc :
  dom (assign key raw acc) =
  ({[key]} ∖ {["__proto__"]}) ∪ dom acc.
Proof.
  unfold assign. destruct (String.eqb_spec key "__proto__") as [-> | Hne].
  - set_solver.
  - rewrite dom_insert_L. set_solver.
Qed.

Lemma validate_keys_good params keys acc :
  (∀ key, key ∈ keys → good_key params key) →
  ∃ m, validate_keys params keys acc = Some m ∧
       dom m = (list_to_set keys ∖ {["__proto__"]}) ∪ dom acc ∧
       (∀ key, key ∈ keys → key ≠ "__proto__" → m !! key = params !! key) ∧
       (∀ key, key ∉ keys ∨ key = "__proto__" → m !! key = acc !! key).
Proof.
  revert acc. induction keys as [| k rest IH]; intros acc Hgood.
  - exists acc. split; [reflexivity |]. split; [set_solver |].
    split; [intros key Hin; inversion Hin | done].
  - destruct (Hgood k) as (raw & Hk & Hv); [left |].
    cbn [validate_keys].
    rewrite Hk, (validateUUID_nonempty _ Hv), Hv. cbn [negb].
    destruct (IH (assign k raw acc)) as (m & Hm & Hdom & Hin & Hout).
    { intros key Hkey. apply Hgood. right. exact Hkey. }
    exists m. split; [exact Hm |]. split; [| split].
    + rewrite Hdom, dom_assign. set_solver.
    + intros key Hkey Hne. destruct (decide (key ∈ rest)) as [Hr | Hr].
      * apply Hin; assumption.
      * rewrite (Hout key (or_introl Hr)).
        apply elem_of_cons in Hkey as [-> | Hkey]; [| done].
        rewrite lookup_assign, decide_True by done. congruence.
    + intros key Hkey.
      assert (Hacc : assign k raw acc !! key = acc !! key).
      { rewrite lookup_assign. destruct (decide _) as [[-> Hne] |]; [| done].
        destruct Hkey as [Hkey | ->]; [| done].
        exfalso. apply Hkey. left. }
      rewrite <- Hacc. apply Hout.
      destruct Hkey as [Hkey | ->]; [| right; reflexivity].
      left. intros Hr. apply Hkey. right. exact Hr.
Qed.

Lemma _checkAuthStatus_passes c :
  auth_passes (props c) →
  ∃ c', _checkAuthStatus c = Ok c' ∧ responseError c' = responseError c.
Proof.
  unfold auth_passes, _checkAuthStatus.
  destruct (authProvider (props c)) as [provider |].
  - intros (s & -> & Hs). simpl.
    destruct (requiresAuthentication (props c)); simpl.
    + rewrite Hs by reflexivity. simpl. eauto.
    + eauto.
  - intros ->. eauto.
Qed.

(** What the first two stages leave when authentication is required and
    no provider is configured. *)
Lemma auth_without_provider args :
  requiresAuthentication args = true →
  authProvider args = None →
  ∃ c2, _validateUUIDs (new args) ≫= _checkAuthStatus = Ok c2 ∧
        responseError c2 =
          Some (UnauthorizedError (Some
            (with_message "Authentication provider not configured"))).
Proof.
  intros Hreq Hnone.
  destruct (_validateUUIDs_total (new args)) as (c1 & H1).
  destruct (_validateUUIDs_frame _ _ H1) as (Hp & _).
  rewrite H1. simpl. unfold _checkAuthStatus.
  rewrite Hp. simpl. rewrite Hnone, Hreq. eauto.
Qed.

(** C6: when authentication is required and no provider is configured the
    response is 401 with the message "Authentication provider not
    configured", the same for any two such requests and controllers,
    whatever their headers; when a provider is configured and its lookup
    yields no session, the response is 401. *)
Theorem unauthorized_when_required :
  (∀ (impl : Controller) args,
     requiresAuthentication args = true →
     authProvider args = None →
     invoke (new args) = Ok provider_missing_401) ∧
  (∀ (impl1 impl2 : Controller) args1 args2,
     requiresAuthentication args1 = true → authProvider args1 = None →
     requiresAuthentication args2 = true → authProvider args2 = None →
     @invoke impl1 (new args1) = @invoke impl2 (new args2)) ∧
  (∀ (impl : Controller) args provider s,
     requiresAuthentication args = true →
     authProvider args = Some provider →
     getSession provider (headers (request args)) = Ok s →
     truthy s = false →
     invoke (new args) = Ok not_logged_in_401).
Proof.
  assert (Hfirst : ∀ (impl : Controller) args,
            requiresAuthentication args = true →
            authProvider args = None →
            invoke (new args) = Ok provider_missing_401).
  { intros impl args Hreq Hnone.
    destruct (auth_without_provider args Hreq Hnone) as (c2 & H12 & He).
    apply (pending_after_auth (new args) c2 _ eq_refl H12 He). }
  split; [exact Hfirst |]. split.
  - intros impl1 impl2 args1 args2 Hr1 Hn1 Hr2 Hn2.
    rewrite (Hfirst impl1 args1 Hr1 Hn1), (Hfirst impl2 args2 Hr2 Hn2).
    reflexivity.
  - intros impl args provider s Hreq Hsome Hget Hfalsy.
    destruct (_validateUUIDs_total (new args)) as (c1 & H1).
    destruct (_validateUUIDs_frame _ _ H1) as (Hp & _).
    assert (H2 : _checkAuthStatus c1 =
                 Ok (set_responseError
                       (UnauthorizedError (Some (with_message
                          "You must be logged in to view this content"))) c1)).
    { unfold _checkAuthStatus. rewrite Hp. simpl.
      rewrite Hsome, Hget. simpl. rewrite Hreq, Hfalsy. reflexivity. }
    refine (proj2 (pending_after_auth (new args)
                     (set_responseError
                        (UnauthorizedError (Some (with_message
                           "You must be logged in to view this content"))) c1)
                     _ eq_refl _ eq_refl)).
    rewrite H1. simpl. exact H2.
Qed.

Lemma unauthorized_when_required_witness :
  @invoke echo (new (guarded_item [])) = Ok provider_missing_401 ∧
  @invoke echo (new (guarded_item [])) =
    @invoke strict (new (guarded_item [("authorization", "Bearer token")])) ∧
  @invoke echo (new members_only) = Ok not_logged_in_401.
Proof.
  destruct unauthorized_when_required as (H1 & H2 & H3).
  split; [| split].
  - apply (H1 echo (guarded_item [])); reflexivity.
  - apply (H2 echo strict (guarded_item [])
             (guarded_item [("authorization", "Bearer token")]));
      reflexivity.
  - apply (H3 echo members_only anonymous VNull); reflexivity.
Defined.

(** ** Precedence of errors *)

(** C1, as stated, fails: parameter validation sets NotFound first, and
    authentication, which runs whether or not an error is pending, puts
    its Unauthorized error in its place; the response is not the rendering
    of the first error. *)
Lemma first_error_is_replaced :
  ∃ c1, _validateUUIDs (new (guarded_item [])) = Ok c1 ∧
        responseError c1 = Some (NotFoundError None) ∧
        @invoke echo (new (guarded_item [])) = Ok provider_missing_401 ∧
        @invoke echo (new (guarded_item [])) ≠
          toResponse (NotFoundError None).
Proof.
  eexists. split; [reflexivity |]. split; [reflexivity |].
  split; [reflexivity | discriminate].
Qed.

(** C1 (amended): the stages run in the order parameter validation,
    authentication, body validation, extra validation, dispatch.
    Authentication runs even when an error is pending and either keeps
    that error or, when authentication is required and fails, replaces it
    by its Unauthorized error.  After authentication nothing replaces a
    pending error: body validation is skipped, extra validation keeps the
    error and can only put field errors after its own, dispatch renders
    it; so the response is the rendering of the error that is pending
    after authentication. *)
Theorem pending_error_precedence (impl : Controller) :
  (∀ c, init c =
        ((_validateUUIDs c ≫= _checkAuthStatus) ≫= _validateJSONInput)
          ≫= _additionalValidation ∧
        invoke c = init c ≫= respond) ∧
  (∀ c c', _checkAuthStatus c = Ok c' →
     responseError c' = responseError c ∨
     (requiresAuthentication (props c) = true ∧
      ∃ m, responseError c' =
             Some (UnauthorizedError (Some (with_message m))))) ∧
  (∀ c e, responseError c = Some e → _validateJSONInput c = Ok c) ∧
  (∀ c c' e, responseError c = Some e → _additionalValidation c = Ok c' →
     ∃ e' extra, responseError c' = Some e' ∧
       name e' = name e ∧ message e' = message e ∧
       responseCode e' = responseCode e ∧ data e' = data e ∧
       default [] (fieldErrors e') =
         (default [] (fieldErrors e) ++ extra)%list) ∧
  (∀ c e, responseError c = Some e → respond c = toResponse e) ∧
  (∀ args c2 e,
     _validateUUIDs (new args) ≫= _checkAuthStatus = Ok c2 →
     responseError c2 = Some e →
     invoke (new args) = toResponse e).
Proof.
  split; [| split; [| split; [| split; [| split]]]].
  - intros c. split; [apply init_unfold | reflexivity].
  - apply _checkAuthStatus_error.
  - apply _validateJSONInput_pending.
  - intros c c' e. apply _additionalValidation_pending.
  - intros c e. apply respond_pending.
  - intros args c2 e H12 He.
    apply (pending_after_auth (new args) c2 e eq_refl H12 He).
Qed.

Lemma pending_error_precedence_witness :
  @invoke strict (new (open_item "not-a-uuid")) =
    toResponse (NotFoundError None).
Proof.
  apply (proj2 (proj2 (proj2 (proj2 (proj2 (pending_error_precedence strict)))))
           (open_item "not-a-uuid")
           (set_params ∅ (set_responseError (NotFoundError None)
                            (new (open_item "not-a-uuid"))))
           (NotFoundError None));
    reflexivity.
Defined.

(** ** UUID parameters *)

(** C2, as stated, fails three times: with a malformed identifier on a
    route that requires authentication and has no provider the response is
    401, not 404; when the request carries no parameter object at all the
    declared key is not checked, the user logic runs and the validated
    parameters are empty; and a declared key [__proto__] that is bound to a
    UUID passes the check and is not among the validated parameters. *)
Lemma malformed_uuid_not_always_404 :
  (bad_key {[ "id" := "not-a-uuid" ]} "id" ∧
   @invoke echo (new (guarded_item [])) = Ok provider_missing_401 ∧
   status provider_missing_401 ≠ 404) ∧
  (validateUUIDs unrouted_item = Some ["id"] ∧
   req_params (request unrouted_item) = None ∧
   @invoke echo (new unrouted_item) =
     Ok {| status := 200; body := VUndefined |} ∧
   (c ← @init echo (new unrouted_item); Ok (params c)) = Ok (Some ∅)) ∧
  (validateUUIDs proto_item = Some ["__proto__"] ∧
   good_key {[ "__proto__" := some_uuid ]} "__proto__" ∧
   @invoke echo (new proto_item) =
     Ok {| status := 200; body := VUndefined |} ∧
   (c ← @init echo (new proto_item); Ok (params c)) = Ok (Some ∅)).
Proof.
  split; [split; [| split] | split; [repeat split |]].
  - intros raw Hraw. rewrite lookup_singleton_eq in Hraw.
    injection Hraw as <-. reflexivity.
  - reflexivity.
  - discriminate.
  - split; [reflexivity |]. split; [| split; [reflexivity |]].
    + exists some_uuid. split; [apply lookup_singleton_eq | reflexivity].
    + vm_compute. reflexivity.
Qed.

(** C2 (amended): for a request that carries a parameter object, to a
    route that declares UUID parameters: if a declared key is missing or
    bound to a string that is not a UUID, parameter validation sets a
    NotFound error without field errors and exposes no parameter, and the
    response is 404 "Not Found" whenever authentication then raises no
    error; if every declared key is bound to a UUID, the validated
    parameters are exactly the declared keys other than [__proto__], with
    the values of the request. *)
Theorem uuid_parameters_checked (impl : Controller)
    (args : RouteControllerProps) (keys : list string)
    (pm : gmap string string) :
  validateUUIDs args = Some keys →
  req_params (request args) = Some pm →
  ((∃ key, key ∈ keys ∧ bad_key pm key) →
     _validateUUIDs (new args) =
       Ok (set_params ∅ (set_responseError (NotFoundError None) (new args))) ∧
     toResponse (NotFoundError None) = Ok not_found_404 ∧
     fieldErrors (NotFoundError None) = None ∧
     (auth_passes args → invoke (new args) = Ok not_found_404)) ∧
  ((∀ key, key ∈ keys → good_key pm key) →
     ∃ m, _validateUUIDs (new args) = Ok (set_params m (new args)) ∧
          dom m = list_to_set keys ∖ {["__proto__"]} ∧
          (∀ key, key ∈ keys → key ≠ "__proto__" → m !! key = pm !! key)).
Proof.
  intros Hkeys Hpm. split.
  - intros (key & Hin & Hbad).
    assert (H1 : _validateUUIDs (new args) =
                 Ok (set_params ∅ (set_responseError (NotFoundError None)
                                     (new args)))).
    { unfold _validateUUIDs. simpl. rewrite Hkeys, Hpm.
      rewrite (validate_keys_bad pm keys ∅ key Hin Hbad). reflexivity. }
    split; [exact H1 |]. split; [reflexivity |]. split; [reflexivity |].
    intros Hauth.
    destruct (_checkAuthStatus_passes
                (set_params ∅ (set_responseError (NotFoundError None)
                                 (new args))) Hauth) as (c2 & H2 & He).
    refine (proj2 (pending_after_auth (new args) c2 (NotFoundError None)
                     eq_refl _ He)).
    rewrite H1. simpl. exact H2.
  - intros Hgood.
    destruct (validate_keys_good pm keys ∅ Hgood) as (m & Hm & Hdom & Hin & _).
    exists m. split; [| split; [| exact Hin]].
    + unfold _validateUUIDs. simpl. rewrite Hkeys, Hpm, Hm. reflexivity.
    + rewrite Hdom. set_solver.
Qed.

Lemma uuid_parameters_checked_witness :
  (_validateUUIDs (new (open_item "not-a-uuid")) =
     Ok (set_params ∅ (set_responseError (NotFoundError None)
                         (new (open_item "not-a-uuid")))) ∧
   toResponse (NotFoundError None) = Ok not_found_404 ∧
   fieldErrors (NotFoundError None) = None ∧
   (auth_passes (open_item "not-a-uuid") →
    @invoke echo (new (open_item "not-a-uuid")) = Ok not_found_404)) ∧
  (∃ m, _validateUUIDs (new (open_item some_uuid)) =
          Ok (set_params m (new (open_item some_uuid))) ∧
        dom m = list_to_set ["id"] ∖ {["__proto__"]} ∧
        (∀ key, key ∈ ["id"] → key ≠ "__proto__" →
           m !! key = ({[ "id" := some_uuid ]} : gmap string string) !! key)).
Proof.
  split.
  - apply (proj1 (uuid_parameters_checked echo (open_item "not-a-uuid")
                    ["id"] {[ "id" := "not-a-uuid" ]} eq_refl eq_refl)).
    exists "id". split; [left |].
    intros raw Hraw. rewrite lookup_singleton_eq in Hraw.
    injection Hraw as <-. reflexivity.
  - apply (proj2 (uuid_parameters_checked echo (open_item some_uuid)
                    ["id"] {[ "id" := some_uuid ]} eq_refl eq_refl)).
    intros key Hkey. apply list_elem_of_singleton in Hkey as ->.
    exists some_uuid. split; [apply lookup_singleton_eq | reflexivity].
Defined.

Example open_item_not_found :
  @invoke echo (new (open_item "not-a-uuid")) = Ok not_found_404.
Proof. reflexivity. Qed.

Example open_item_found :
  (c ← @init echo (new (open_item some_uuid)); Ok (params c)) =
  Ok (Some {[ "id" := some_uuid ]}).
Proof. vm_compute. reflexivity. Qed.

(** ** The route table *)

Module RouterFacts.
Import Router.

(** Distinct methods have distinct keys in the table. *)
Lemma method_key_inj m1 m2 :
  toUpperCase (Method_string m1) = toUpperCase (Method_string m2) → m1 = m2.
Proof. destruct m1, m2; simpl; intros H; try reflexivity; discriminate. Qed.

Lemma registered_insert routes d d' h :
  registered routes d →
  registered
    (<[path d' := <[toUpperCase (Method_string (method d')) := h]>
                    (default ∅ (routes !! path d'))]> routes) d.
Proof.
  unfold registered. intros Hd.
  destruct (decide (path d' = path d)) as [Heq | Hne].
  - rewrite Heq in *. rewrite lookup_insert_eq. simpl.
    destruct (decide (toUpperCase (Method_string (method d')) =
                      toUpperCase (Method_string (method d)))) as [-> | Hm].
    + rewrite lookup_insert_eq. eauto.
    + rewrite lookup_insert_ne by exact Hm. exact Hd.
  - rewrite lookup_insert_ne by exact Hne. exact Hd.
Qed.

Lemma registered_insert_same routes d h :
  registered
    (<[path d := <[toUpperCase (Method_string (method d)) := h]>
                   (default ∅ (routes !! path d))]> routes) d.
Proof.
  unfold registered. rewrite lookup_insert_eq. simpl.
  rewrite lookup_insert_eq. eauto.
Qed.

(** An entry whose pair is already in the table stops the loop. *)
Lemma register_registered authProvider logger entries routes d imported :
  (d, imported) ∈ entries →
  registered routes d →
  ∃ t, register authProvider logger entries routes = Throw t.
Proof.
  revert routes.
  induction entries as [| [d0 m0] rest IH]; intros routes Hin Hreg.
  - inversion Hin.
  - cbn [register].
    destruct (default_export m0) as [Ctor |]; [| eauto].
    destruct (default ∅ (routes !! path d0)
                !! toUpperCase (Method_string (method d0))) eqn:Hl; [eauto |].
    apply elem_of_cons in Hin as [[= <- <-] | Hin].
    + destruct Hreg as [h Hh]. congruence.
    + apply IH; [exact Hin |]. apply registered_insert, Hreg.
Qed.

(** Two entries with the same pair stop the loop. *)
Lemma register_duplicate authProvider logger entries routes
    (i j : nat) di mi dj mj :
  (i < j)%nat →
  entries !! i = Some (di, mi) →
  entries !! j = Some (dj, mj) →
  path di = path dj → method di = method dj →
  ∃ t, register authProvider logger entries routes = Throw t.
Proof.
  revert routes i j.
  induction entries as [| [d0 m0] rest IH]; intros routes i j Hlt Hi Hj Hp Hm.
  - discriminate.
  - cbn [register].
    destruct (default_export m0) as [Ctor |]; [| eauto].
    destruct (default ∅ (routes !! path d0)
                !! toUpperCase (Method_string (method d0))) eqn:Hl; [eauto |].
    destruct j as [| j]; [lia |]. simpl in Hj.
    destruct i as [| i]; simpl in Hi.
    + injection Hi as <- <-.
      apply (register_registered _ _ rest _ dj mj).
      * eapply list_elem_of_lookup_2, Hj.
      * unfold registered. rewrite <- Hp, <- Hm.
        apply registered_insert_same.
    + apply (IH _ i j); [lia | assumption ..].
Qed.

Lemma import_all_length import discovered imports :
  import_all import discovered = Ok imports →
  length imports = length discovered.
Proof.
  revert imports. induction discovered as [| d rest IH]; intros imports.
  - intros [= <-]. reflexivity.
  - simpl. destruct (import (handler d)); [| discriminate]. simpl.
    destruct (import_all import rest) as [ms |]; [| discriminate]. simpl.
    intros [= <-]. simpl. f_equal. apply IH. reflexivity.
Qed.

End RouterFacts.

Lemma lookup_two_split {A} (l : list A) (i j : nat) x y :
  (i < j)%nat → l !! i = Some x → l !! j = Some y →
  ∃ l1 l2 l3, l = (l1 ++ x :: l2 ++ y :: l3)%list.
Proof.
  intros Hlt Hi Hj.
  pose proof (take_drop_middle l i x Hi) as Hl.
  assert (Hj' : drop (S i) l !! (j - S i)%nat = Some y).
  { rewrite lookup_drop. replace (S i + (j - S i))%nat with j by lia. exact Hj. }
  pose proof (take_drop_middle _ _ _ Hj') as Hl'.
  exists (take i l), (take (j - S i) (drop (S i) l)),
         (drop (S (j - S i)) (drop (S i) l)).
  rewrite Hl'. symmetry. exact Hl.
Qed.

Lemma register_all_classes authProvider logger entries routes t :
  Forall (λ e, is_Some (Router.default_export (snd e))) entries →
  Router.register authProvider logger entries routes = Throw t →
  ∃ d, d ∈ entries.*1 ∧ t = redefined d.
Proof.
  revert routes. induction entries as [| [d0 m0] rest IH]; intros routes Hall.
  - discriminate.
  - apply Forall_cons in Hall as [[Ctor HC] Hall]. simpl in HC.
    cbn [Router.register]. rewrite HC.
    destruct (default ∅ (routes !! Router.path d0) !! _).
    + intros [= <-]. exists d0. split; [left | reflexivity].
    + intros H. destruct (IH _ Hall H) as (d & Hd & ->).
      exists d. split; [right; exact Hd | reflexivity].
Qed.

Lemma parseRoutes_duplicate_lt import discovered authProvider logger
    (i j : nat) di dj :
  (i < j)%nat →
  discovered !! i = Some di → discovered !! j = Some dj →
  Router.path di = Router.path dj →
  Router.method di = Router.method dj →
  ∃ t, Router.parseRoutes import discovered authProvider logger = Throw t.
Proof.
  intros Hlt Hi Hj Hp Hm. unfold Router.parseRoutes.
  destruct (Router.import_all import discovered) as [imports |] eqn:Himp;
    [| simpl; eauto]. simpl.
  pose proof (RouterFacts.import_all_length _ _ _ Himp) as Hlen.
  destruct (lookup_lt_is_Some_2 imports i) as [mi Hmi].
  { rewrite Hlen. eapply lookup_lt_Some, Hi. }
  destruct (lookup_lt_is_Some_2 imports j) as [mj Hmj].
  { rewrite Hlen. eapply lookup_lt_Some, Hj. }
  apply (RouterFacts.register_duplicate _ _ _ _ i j di mi dj mj Hlt);
    try assumption.
  - apply lookup_zip_Some. split; assumption.
  - apply lookup_zip_Some. split; assumption.
Qed.

Lemma parseRoutes_duplicate import discovered authProvider logger
    (i j : nat) di dj :
  i ≠ j →
  discovered !! i = Some di → discovered !! j = Some dj →
  Router.path di = Router.path dj →
  Router.method di = Router.method dj →
  ∃ t, Router.parseRoutes import discovered authProvider logger = Throw t.
Proof.
  intros Hne Hi Hj Hp Hm.
  destruct (Nat.lt_total i j) as [Hlt | [Heq | Hgt]]; [| congruence |].
  - apply (parseRoutes_duplicate_lt _ _ _ _ i j di dj); assumption.
  - apply (parseRoutes_duplicate_lt _ _ _ _ j i dj di); auto.
Qed.

Lemma getRoutes_duplicate_lt scan import config (i j : nat) fi fj di dj :
  (i < j)%nat →
  scan !! i = Some fi → scan !! j = Some fj →
  Router.discover (Router.routesDirectory config)
    (default EmptyString (Router.routePrefix config)) fi = Some di →
  Router.discover (Router.routesDirectory config)
    (default EmptyString (Router.routePrefix config)) fj = Some dj →
  Router.path di = Router.path dj →
  Router.method di = Router.method dj →
  ∃ t, Router.getRoutes scan import config = Throw t.
Proof.
  intros Hlt Hi Hj Hdi Hdj Hp Hm.
  destruct (lookup_two_split scan i j fi fj Hlt Hi Hj) as (l1 & l2 & l3 & ->).
  unfold Router.getRoutes, Router.readRoutes.
  set (f := Router.discover _ _) in *.
  assert (Hom : omap f (l1 ++ fi :: l2 ++ fj :: l3)%list =
                (omap f l1 ++ di :: omap f l2 ++ dj :: omap f l3)%list).
  { rewrite omap_app. simpl. rewrite Hdi.
    rewrite omap_app. simpl. rewrite Hdj. reflexivity. }
  rewrite Hom.
  destruct (parseRoutes_duplicate_lt import
              (omap f l1 ++ di :: omap f l2 ++ dj :: omap f l3)%list
              (Router.rc_authProvider config) (Router.rc_logger config)
              (length (omap f l1)) (length (omap f l1) + S (length (omap f l2)))
              di dj) as [t Ht]; try assumption.
  - lia.
  - rewrite lookup_app_r by lia. rewrite Nat.sub_diag. reflexivity.
  - rewrite lookup_app_r by lia.
    replace (length (omap f l1) + S (length (omap f l2)) - length (omap f l1))%nat
      with (S (length (omap f l2))) by lia.
    simpl. rewrite lookup_app_r by lia. rewrite Nat.sub_diag. reflexivity.
  - exists t. destruct (omap f l1); exact Ht.
Qed.

(** C9: when two discovered entries have the same path and method, the
    construction of the route table throws and yields no table; when every
    module was imported and exports a class by default, what is thrown is
    the error "Router <method> <path> is redefined" of one of the entries.
    The same holds from the files on, for two scanned files that resolve
    to the same pair. *)
Theorem duplicate_route_is_fatal :
  (∀ import discovered authProvider logger (i j : nat) di dj,
     i ≠ j →
     discovered !! i = Some di → discovered !! j = Some dj →
     Router.path di = Router.path dj →
     Router.method di = Router.method dj →
     (∃ t, Router.parseRoutes import discovered authProvider logger
           = Throw t) ∧
     (∀ imports,
        Router.import_all import discovered = Ok imports →
        Forall (λ m, is_Some (Router.default_export m)) imports →
        ∃ d, d ∈ discovered ∧
             Router.parseRoutes import discovered authProvider logger
             = Throw (redefined d))) ∧
  (∀ scan import config (i j : nat) fi fj di dj,
     i ≠ j →
     scan !! i = Some fi → scan !! j = Some fj →
     Router.discover (Router.routesDirectory config)
       (default EmptyString (Router.routePrefix config)) fi = Some di →
     Router.discover (Router.routesDirectory config)
       (default EmptyString (Router.routePrefix config)) fj = Some dj →
     Router.path di = Router.path dj →
     Router.method di = Router.method dj →
     ∃ t, Router.getRoutes scan import config = Throw t).
Proof.
  split.
  - intros import discovered authProvider logger i j di dj Hne Hi Hj Hp Hm.
    split; [apply (parseRoutes_duplicate _ _ _ _ i j di dj); assumption |].
    intros imports Himp Hall.
    destruct (parseRoutes_duplicate import discovered authProvider logger
                i j di dj) as [t Ht]; try assumption.
    pose proof Ht as Ht'. unfold Router.parseRoutes in Ht'.
    rewrite Himp in Ht'. simpl in Ht'.
    apply register_all_classes in Ht' as (d & Hd & ->).
    + exists d. split; [| exact Ht].
      rewrite fst_zip in Hd; [exact Hd |].
      rewrite (RouterFacts.import_all_length _ _ _ Himp). lia.
    + apply Forall_forall. intros [d m] Hin. simpl.
      apply elem_of_zip_r in Hin. simpl in Hin.
      rewrite Forall_forall in Hall. apply Hall, Hin.
  - intros scan import config i j fi fj di dj Hne Hi Hj Hdi Hdj Hp Hm.
    destruct (Nat.lt_total i j) as [Hlt | [Heq | Hgt]]; [| congruence |].
    + apply (getRoutes_duplicate_lt _ _ _ i j fi fj di dj); assumption.
    + apply (getRoutes_duplicate_lt _ _ _ j i fj fi dj di); auto.
Qed.

Lemma duplicate_route_is_fatal_witness :
  ((∃ t, Router.parseRoutes import_echo
           [items_get "routes/items/get.ts"; items_get "routes/Items/get.ts"]
           None None = Throw t) ∧
   (∀ imports,
      Router.import_all import_echo
        [items_get "routes/items/get.ts"; items_get "routes/Items/get.ts"]
        = Ok imports →
      Forall (λ m, is_Some (Router.default_export m)) imports →
      ∃ d, d ∈ [items_get "routes/items/get.ts";
                items_get "routes/Items/get.ts"] ∧
           Router.parseRoutes import_echo
             [items_get "routes/items/get.ts";
              items_get "routes/Items/get.ts"] None None
           = Throw (redefined d))) ∧
  (∃ t, Router.getRoutes ["items/get.ts"; "Items/get.ts"] import_echo
          routes_config = Throw t).
Proof.
  split.
  - apply (proj1 duplicate_route_is_fatal import_echo
             [items_get "routes/items/get.ts"; items_get "routes/Items/get.ts"]
             None None 0%nat 1%nat (items_get "routes/items/get.ts")
             (items_get "routes/Items/get.ts"));
      [lia | reflexivity ..].
  - apply (proj2 duplicate_route_is_fatal ["items/get.ts"; "Items/get.ts"]
             import_echo routes_config 0%nat 1%nat
             "items/get.ts" "Items/get.ts"
             (items_get "routes/items/get.ts")
             (items_get "routes/Items/get.ts"));
      [lia | reflexivity ..].
Defined.

Example scenario_duplicate_items :
  Router.getRoutes ["items/get.ts"; "Items/get.ts"] import_echo routes_config
  = Throw (redefined (items_get "routes/Items/get.ts")).
Proof. vm_compute. reflexivity. Qed.

Example scenario_distinct_routes :
  table_keys <$>
    Router.getRoutes ["items/get.ts"; "items/post.ts"; "users/get.js"]
      import_echo routes_config =
  Ok ({[ "/items" := {[ "GET"; "POST" ]}; "/users" := {[ "GET" ]} ]}
        : gmap string (gset string)).
Proof. vm_compute. reflexivity. Qed.

(** * Further properties of the code *)

(** ** The UUID test *)

Lemma matches_spec classes s :
  matches classes s = true ↔
  String.length s = length classes ∧
  ∀ (i : nat) cls c,
    classes !! i = Some cls → String.get i s = Some c → cls c = true.
Proof.
  revert s. induction classes as [| cls classes IH]; intros [| c s]; simpl.
  - split; [intros _; split; [reflexivity | intros i ? ? H; inversion H] | done].
  - split; [discriminate | intros [H _]; discriminate].
  - split; [discriminate | intros [H _]; discriminate].
  - rewrite andb_true_iff, IH. split.
    + intros (Hc & Hlen & Hall). split; [congruence |].
      intros [| i] cls' c' Hcls Hget; simpl in *.
      * congruence.
      * eapply Hall; eassumption.
    + intros (Hlen & Hall). split; [apply (Hall 0%nat); reflexivity |].
      split; [congruence |].
      intros i cls' c' Hcls Hget. apply (Hall (S i)); assumption.
Qed.

Lemma hyphen_char c : hyphen c = true → c = "-"%char.
Proof.
  unfold hyphen. intros H. apply N.eqb_eq in H.
  rewrite <- (ascii_N_embedding c), H. reflexivity.
Qed.

Lemma version_nibble_hex c : version_nibble c = true → hex c = true.
Proof.
  unfold version_nibble, hex, in_range. intros H.
  apply andb_true_iff in H as [H1 H2].
  apply N.leb_le in H1, H2.
  apply orb_true_iff. left. apply orb_true_iff. left.
  apply andb_true_iff. split; apply N.leb_le; lia.
Qed.

Lemma variant_nibble_hex c : variant_nibble c = true → hex c = true.
Proof.
  unfold variant_nibble, hex, in_range. intros H.
  repeat (apply orb_true_iff in H as [H | H]);
    apply andb_true_iff in H as [H1 H2]; apply N.leb_le in H1, H2.
  - apply orb_true_iff. left. apply orb_true_iff. left.
    apply andb_true_iff. split; apply N.leb_le; lia.
  - apply orb_true_iff. left. apply orb_true_iff. right.
    apply andb_true_iff. split; apply N.leb_le; lia.
  - apply orb_true_iff. right.
    apply andb_true_iff. split; apply N.leb_le; lia.
Qed.

Lemma get_lt_length (i : nat) s c :
  String.get i s = Some c → (i < String.length s)%nat.
Proof.
  revert i. induction s as [| a s IH]; intros [| i]; simpl; try discriminate.
  - lia.
  - intros H. apply IH in H. lia.
Qed.

Lemma get_is_Some (i : nat) s :
  (i < String.length s)%nat → ∃ c, String.get i s = Some c.
Proof.
  revert i. induction s as [| a s IH]; intros [| i]; simpl; try lia.
  - eauto.
  - intros H. apply IH. lia.
Qed.

(** X1: a string accepted by [validateUUID] has 36 characters, a hyphen at
    the positions 8, 13, 18 and 23, a digit from 1 to 5 at position 14, one
    of 8, 9, a, b, A, B at position 19, and hexadecimal digits everywhere
    else. *)
Theorem validateUUID_shape (uuid : string) :
  validateUUID uuid = true →
  String.length uuid = 36%nat ∧
  (∀ i, i ∈ hyphen_positions → String.get i uuid = Some "-"%char) ∧
  (∃ v, String.get 14 uuid = Some v ∧ version_nibble v = true) ∧
  (∃ w, String.get 19 uuid = Some w ∧ variant_nibble w = true) ∧
  (∀ (i : nat) c, String.get i uuid = Some c → i ∉ hyphen_positions →
     hex c = true).
Proof.
  unfold validateUUID. intros H. apply matches_spec in H as [Hlen Hall].
  change (length uuid_pattern) with 36%nat in Hlen.
  assert (Hat : ∀ (i : nat) cls, uuid_pattern !! i = Some cls →
                  ∃ c, String.get i uuid = Some c ∧ cls c = true).
  { intros i cls Hcls.
    destruct (get_is_Some i uuid) as [c Hc].
    - rewrite Hlen. apply lookup_lt_Some in Hcls. exact Hcls.
    - exists c. split; [exact Hc | exact (Hall i cls c Hcls Hc)]. }
  split; [exact Hlen |]. split; [| split; [| split]].
  - intros i Hi. unfold hyphen_positions in Hi.
    repeat (apply elem_of_cons in Hi as [-> | Hi]);
      [.. | inversion Hi];
      match goal with
      | |- String.get ?i _ = _ =>
          destruct (Hat i hyphen eq_refl) as (c & Hc & Hh)
      end;
      apply hyphen_char in Hh; subst c; exact Hc.
  - apply (Hat 14%nat). reflexivity.
  - apply (Hat 19%nat). reflexivity.
  - intros i c Hc Hnot.
    pose proof (get_lt_length _ _ _ Hc) as Hlt. rewrite Hlen in Hlt.
    assert (Hcls : ∃ cls, uuid_pattern !! i = Some cls)
      by (apply lookup_lt_is_Some; exact Hlt).
    destruct Hcls as [cls Hcls]. pose proof (Hall i cls c Hcls Hc) as Hok.
    unfold hyphen_positions in Hnot.
    do 36 (destruct i as [| i];
           [first [ exfalso; apply Hnot; solve [repeat constructor]
                  | injection Hcls as <-;
                    first [ exact Hok
                          | apply version_nibble_hex, Hok
                          | apply variant_nibble_hex, Hok ] ] |]).
    simpl in Hcls. discriminate.
Qed.

Lemma validateUUID_shape_witness :
  String.length some_uuid = 36%nat ∧
  (∀ i, i ∈ hyphen_positions → String.get i some_uuid = Some "-"%char) ∧
  (∃ v, String.get 14 some_uuid = Some v ∧ version_nibble v = true) ∧
  (∃ w, String.get 19 some_uuid = Some w ∧ variant_nibble w = true) ∧
  (∀ (i : nat) c, String.get i some_uuid = Some c → i ∉ hyphen_positions →
     hex c = true).
Proof. apply (validateUUID_shape some_uuid). reflexivity. Defined.

Lemma matches_map_string (f : ascii → ascii) classes s :
  Forall (λ cls : ascii → bool, ∀ c, cls (f c) = cls c) classes →
  matches classes (map_string f s) = matches classes s.
Proof.
  intros Hall. revert s.
  induction Hall as [| cls classes Hcls _ IH]; intros [| c s]; simpl;
    try reflexivity.
  rewrite Hcls, IH. reflexivity.
Qed.

Lemma uuid_classes_ignore_case (f : ascii → ascii) :
  (∀ c, hex (f c) = hex c) →
  (∀ c, hyphen (f c) = hyphen c) →
  (∀ c, version_nibble (f c) = version_nibble c) →
  (∀ c, variant_nibble (f c) = variant_nibble c) →
  Forall (λ cls : ascii → bool, ∀ c, cls (f c) = cls c) uuid_pattern.
Proof.
  intros Hhex Hhy Hve Hva. unfold uuid_pattern. simpl.
  repeat (constructor; [assumption |]). constructor.
Qed.

(** X2: the UUID test ignores the case of the letters: a string is
    accepted exactly when its upper-case and its lower-case forms are. *)
Theorem validateUUID_ignores_case (uuid : string) :
  validateUUID (toUpperCase uuid) = validateUUID uuid ∧
  validateUUID (toLowerCase uuid) = validateUUID uuid.
Proof.
  split; apply matches_map_string, uuid_classes_ignore_case;
    intros [[] [] [] [] [] [] [] []]; reflexivity.
Qed.

(** ** Route discovery *)

Lemma Method_of_string_Some s m :
  Router.Method_of_string s = Some m → s = Router.Method_string m.
Proof.
  unfold Router.Method_of_string. intros H.
  apply find_some in H as [_ H]. apply String.eqb_eq in H. congruence.
Qed.

Lemma N_of_ascii_inj c c' : N_of_ascii c = N_of_ascii c' → c = c'.
Proof.
  intros H. rewrite <- (ascii_N_embedding c), <- (ascii_N_embedding c'), H.
  reflexivity.
Qed.

Lemma collapse_slashes_head s :
  head_char (Router.collapse_slashes s) = head_char s.
Proof.
  induction s as [| c rest IH]; [reflexivity |].
  cbn [Router.collapse_slashes]. destruct rest as [| c' rest']; [reflexivity |].
  destruct ((N_of_ascii c =? 47) && (N_of_ascii c' =? 47))%N eqn:Hs;
    [| reflexivity].
  rewrite IH. simpl. apply andb_true_iff in Hs as [H1 H2].
  apply N.eqb_eq in H1, H2. f_equal. apply N_of_ascii_inj. congruence.
Qed.

Lemma collapse_slashes_free s :
  has_double_slash (Router.collapse_slashes s) = false.
Proof.
  induction s as [| c rest IH]; [reflexivity |].
  cbn [Router.collapse_slashes]. destruct rest as [| c' rest']; [reflexivity |].
  destruct ((N_of_ascii c =? 47) && (N_of_ascii c' =? 47))%N eqn:Hs;
    [exact IH |].
  pose proof (collapse_slashes_head (String c' rest')) as Hh.
  destruct (Router.collapse_slashes (String c' rest')) as [| c'' rest''] eqn:Hc;
    [reflexivity |].
  simpl in Hh. injection Hh as ->.
  cbn [has_double_slash]. rewrite Hs. exact IH.
Qed.

Lemma Method_in_methods m : In m Router.methods.
Proof. destruct m; simpl; tauto. Qed.

Lemma Method_of_string_None s m :
  Router.Method_of_string s = None → Router.Method_string m ≠ s.
Proof.
  unfold Router.Method_of_string. intros H Heq.
  pose proof (find_none _ _ H m (Method_in_methods m)) as Hm.
  simpl in Hm. apply String.eqb_neq in Hm. contradiction.
Qed.

(** X3: a scanned file becomes a route exactly when its base name without
    the last three characters is, up to case, one of the seven method
    names; the method of the route is that name and its path never holds
    two separators in a row, whatever the prefix. *)
Theorem discover_spec (dir routePrefix file : string) :
  match Router.discover dir routePrefix file with
  | Some d =>
      Router.Method_string (Router.method d) =
        toLowerCase (Router.drop_extension (Router.basename file)) ∧
      has_double_slash (Router.path d) = false
  | None =>
      ∀ m, Router.Method_string m ≠
           toLowerCase (Router.drop_extension (Router.basename file))
  end.
Proof.
  unfold Router.discover.
  destruct (Router.Method_of_string _) as [m |] eqn:Hm; simpl.
  - split; [symmetry; apply Method_of_string_Some, Hm |].
    apply collapse_slashes_free.
  - intros m. apply Method_of_string_None, Hm.
Qed.

(** The round trip between the methods and their names. *)
Lemma Method_of_string_Method_string m :
  Router.Method_of_string (Router.Method_string m) = Some m.
Proof. destruct m; reflexivity. Qed.

Lemma map_string_app f a b :
  map_string f (a ++ b) = map_string f a ++ map_string f b.
Proof. induction a as [| c a IH]; simpl; [reflexivity | rewrite IH; reflexivity]. Qed.

Lemma map_string_length f s : String.length (map_string f s) = String.length s.
Proof. induction s as [| c s IH]; simpl; [reflexivity | rewrite IH; reflexivity]. Qed.

Lemma map_string_substring f (n m : nat) s :
  String.substring n m (map_string f s) = map_string f (String.substring n m s).
Proof.
  revert n m. induction s as [| c s IH]; intros [| n] [| m]; simpl;
    try reflexivity.
  - rewrite IH. reflexivity.
  - apply IH.
  - apply IH.
Qed.

Lemma split_last_map f s acc_dir acc_name seen :
  (∀ c, (N_of_ascii (f c) =? 47)%N = (N_of_ascii c =? 47)%N) →
  f "."%char = "."%char → f "/"%char = "/"%char →
  Router.split_last (map_string f s) (map_string f acc_dir)
    (map_string f acc_name) seen =
  (map_string f (fst (Router.split_last s acc_dir acc_name seen)),
   map_string f (snd (Router.split_last s acc_dir acc_name seen))).
Proof.
  intros Hslash Hdot Hsl. revert acc_dir acc_name seen.
  induction s as [| c s IH]; intros acc_dir acc_name seen; simpl.
  - destruct seen; simpl; [reflexivity | rewrite Hdot; reflexivity].
  - rewrite Hslash. destruct (N_of_ascii c =? 47)%N.
    + destruct seen.
      * replace (map_string f acc_dir ++ "/" ++ map_string f acc_name)
          with (map_string f (acc_dir ++ "/" ++ acc_name))
          by (rewrite map_string_app; simpl; rewrite Hsl; reflexivity).
        apply (IH _ EmptyString true).
      * apply (IH _ EmptyString true).
    + rewrite <- (IH acc_dir (acc_name ++ String c EmptyString) seen).
      rewrite map_string_app. reflexivity.
Qed.

Lemma toLowerCase_idemp s : toLowerCase (toLowerCase s) = toLowerCase s.
Proof.
  induction s as [| c s IH]; [reflexivity |].
  unfold toLowerCase in *. simpl. rewrite IH. f_equal.
  destruct c as [[] [] [] [] [] [] [] []]; reflexivity.
Qed.

Lemma eqb_dot_toLowerCase s :
  String.eqb (toLowerCase s) "." = String.eqb s ".".
Proof.
  destruct s as [| c [| c' s]]; try reflexivity.
  - destruct c as [[] [] [] [] [] [] [] []]; reflexivity.
  - unfold toLowerCase. simpl.
    destruct (Ascii.eqb (toLowerCase_char c) "."), (Ascii.eqb c ".");
      reflexivity.
Qed.

Lemma split_last_toLowerCase file :
  Router.dirname (toLowerCase file) = toLowerCase (Router.dirname file) ∧
  Router.basename (toLowerCase file) = toLowerCase (Router.basename file).
Proof.
  assert (Hsplit :
    Router.split_last (toLowerCase file) EmptyString EmptyString false =
    (toLowerCase (Router.dirname file), toLowerCase (Router.basename file))).
  { apply (split_last_map toLowerCase_char file EmptyString EmptyString false);
      [| reflexivity | reflexivity].
    intros [[] [] [] [] [] [] [] []]; reflexivity. }
  unfold Router.dirname at 1, Router.basename at 1. rewrite Hsplit. done.
Qed.

Lemma drop_extension_toLowerCase s :
  Router.drop_extension (toLowerCase s) = toLowerCase (Router.drop_extension s).
Proof.
  unfold Router.drop_extension, toLowerCase.
  rewrite map_string_length. apply map_string_substring.
Qed.

(** The path and the method found for a file are those found for its
    lower-case spelling. *)
Lemma discover_toLowerCase dir routePrefix file :
  (λ d, (Router.path d, Router.method d)) <$>
    Router.discover dir routePrefix (toLowerCase file) =
  (λ d, (Router.path d, Router.method d)) <$>
    Router.discover dir routePrefix file.
Proof.
  destruct (split_last_toLowerCase file) as [Hdir Hbase].
  unfold Router.discover.
  rewrite Hbase, Hdir, drop_extension_toLowerCase, eqb_dot_toLowerCase,
    !toLowerCase_idemp.
  destruct (Router.Method_of_string _) as [m |]; reflexivity.
Qed.

(** X4: route discovery ignores the case of the letters of a file name:
    two files that differ only by case give the same path and the same
    method, or are both ignored. *)
Theorem discover_ignores_case (dir routePrefix file1 file2 : string) :
  toLowerCase file1 = toLowerCase file2 →
  (λ d, (Router.path d, Router.method d)) <$>
    Router.discover dir routePrefix file1 =
  (λ d, (Router.path d, Router.method d)) <$>
    Router.discover dir routePrefix file2.
Proof.
  intros H.
  rewrite <- (discover_toLowerCase dir routePrefix file1),
          <- (discover_toLowerCase dir routePrefix file2), H.
  reflexivity.
Qed.

Lemma discover_ignores_case_witness :
  (λ d, (Router.path d, Router.method d)) <$>
    Router.discover "routes" "/api" "Items/GET.ts" =
  (λ d, (Router.path d, Router.method d)) <$>
    Router.discover "routes" "/api" "items/get.ts".
Proof.
  apply (discover_ignores_case "routes" "/api" "Items/GET.ts" "items/get.ts").
  reflexivity.
Defined.

(** ** The route table *)

Lemma bound_insert routes p0 k0 (h : Router.Handler) p k :
  bound (<[p0 := <[k0 := h]> (default ∅ (routes !! p0))]> routes) p k ↔
  (p = p0 ∧ k = k0) ∨ bound routes p k.
Proof.
  unfold bound. destruct (decide (p0 = p)) as [<- | Hp].
  - rewrite lookup_insert_eq. simpl.
    destruct (decide (k0 = k)) as [<- | Hk].
    + rewrite lookup_insert_eq. split; [eauto | intros _; eauto].
    + rewrite lookup_insert_ne by exact Hk.
      split; [tauto | intros [[_ ->] | H]; [congruence | exact H]].
  - rewrite lookup_insert_ne by exact Hp.
    split; [tauto | intros [[-> _] | H]; [congruence | exact H]].
Qed.

Lemma bound_empty p k : ¬ bound ∅ p k.
Proof.
  unfold bound. rewrite lookup_empty. simpl. rewrite lookup_empty.
  intros [h H]. discriminate.
Qed.

(** The loop of [parseRoutes] ends with a table when every module exports
    a class and no pair is met twice. *)
Lemma register_distinct authProvider logger entries routes :
  Forall (λ e, is_Some (Router.default_export (snd e))) entries →
  NoDup (route_key <$> entries.*1) →
  (∀ d, d ∈ entries.*1 → ¬ bound routes (route_key d).1 (route_key d).2) →
  ∃ table,
    Router.register authProvider logger entries routes = Ok table ∧
    ∀ p k, bound table p k ↔
           bound routes p k ∨ (p, k) ∈ route_key <$> entries.*1.
Proof.
  revert routes.
  induction entries as [| [d0 m0] rest IH]; intros routes Hall Hnd Hfresh.
  - exists routes. split; [reflexivity |]. intros p k. simpl.
    split; [tauto | intros [H | H]; [exact H | inversion H]].
  - apply Forall_cons in Hall as [[Ctor HC] Hall]. simpl in HC.
    simpl in Hnd. apply NoDup_cons in Hnd as [Hnotin Hnd].
    cbn [Router.register]. rewrite HC.
    destruct (default ∅ (routes !! Router.path d0) !! _) as [h |] eqn:Hl.
    { exfalso. apply (Hfresh d0); [left |]. unfold bound. simpl.
      rewrite Hl. eauto. }
    destruct (IH (<[Router.path d0 :=
                    <[toUpperCase (Router.Method_string (Router.method d0)) :=
                        Router.route_handler authProvider logger Ctor
                          (Router.path d0)
                          (toUpperCase
                             (Router.Method_string (Router.method d0)))]>
                      (default ∅ (routes !! Router.path d0))]> routes)
                Hall Hnd) as (table & Ht & Hb).
    { intros d Hd Hbound. apply bound_insert in Hbound as [[Hp Hk] | Hbound].
      - apply Hnotin. apply list_elem_of_fmap. exists d.
        split; [| exact Hd]. unfold route_key in *. simpl in *. congruence.
      - apply (Hfresh d); [right; exact Hd | exact Hbound]. }
    exists table. split; [exact Ht |]. intros p k. rewrite Hb, bound_insert.
    simpl. rewrite elem_of_cons. unfold route_key at 2. simpl.
    split.
    + intros [[[-> ->] | H] | H]; auto.
    + intros [H | [[= -> ->] | H]]; auto.
Qed.

(** X5: when every module is imported and exports a class by default and
    no two discovered entries have the same path and method, the route
    table is built, and it binds a handler under a path and an upper-case
    method name exactly for the discovered entries. *)
Theorem parseRoutes_distinct import discovered authProvider logger imports :
  Router.import_all import discovered = Ok imports →
  Forall (λ m, is_Some (Router.default_export m)) imports →
  NoDup ((λ d, (Router.path d, Router.method d)) <$> discovered) →
  ∃ table,
    Router.parseRoutes import discovered authProvider logger = Ok table ∧
    ∀ p k, bound table p k ↔
           ∃ d, d ∈ discovered ∧ Router.path d = p ∧
                toUpperCase (Router.Method_string (Router.method d)) = k.
Proof.
  intros Himp Hall Hnd.
  pose proof (RouterFacts.import_all_length _ _ _ Himp) as Hlen.
  assert (Hfst : (zip discovered imports).*1 = discovered)
    by (apply fst_zip; lia).
  destruct (register_distinct authProvider logger (zip discovered imports) ∅)
    as (table & Ht & Hb).
  - apply Forall_forall. intros [d m] Hin. simpl.
    apply elem_of_zip_r in Hin. rewrite Forall_forall in Hall.
    apply Hall, Hin.
  - rewrite Hfst.
    assert (Hinj : ∀ d1 d2, route_key d1 = route_key d2 →
              (Router.path d1, Router.method d1) =
              (Router.path d2, Router.method d2)).
    { intros d1 d2 [= Hp Hm]. apply RouterFacts.method_key_inj in Hm.
      congruence. }
    clear -Hnd Hinj. induction discovered as [| d rest IH]; simpl.
    + constructor.
    + simpl in Hnd. apply NoDup_cons in Hnd as [Hnotin Hnd].
      constructor; [| apply IH, Hnd].
      intros Hin. apply Hnotin.
      apply list_elem_of_fmap in Hin as (d' & Hk & Hd').
      apply list_elem_of_fmap. exists d'. split; [| exact Hd'].
      apply Hinj, Hk.
  - intros d _. apply bound_empty.
  - exists table. split.
    + unfold Router.parseRoutes. rewrite Himp. simpl. exact Ht.
    + intros p k. rewrite Hb, Hfst. split.
      * intros [H | H]; [exfalso; exact (bound_empty _ _ H) |].
        apply list_elem_of_fmap in H as (d & [= -> ->] & Hd). eauto.
      * intros (d & Hd & <- & <-). right.
        apply list_elem_of_fmap. exists d. split; [reflexivity | exact Hd].
Qed.

Lemma parseRoutes_distinct_witness :
  ∃ table,
    Router.parseRoutes import_echo
      [items_get "routes/items/get.ts"; items_post "routes/items/post.ts"]
      None None = Ok table ∧
    ∀ p k, bound table p k ↔
           ∃ d, d ∈ [items_get "routes/items/get.ts";
                     items_post "routes/items/post.ts"] ∧
                Router.path d = p ∧
                toUpperCase (Router.Method_string (Router.method d)) = k.
Proof.
  apply (parseRoutes_distinct import_echo
           [items_get "routes/items/get.ts"; items_post "routes/items/post.ts"]
           None None
           [{| Router.default_export := Some echo_class |};
            {| Router.default_export := Some echo_class |}]).
  - reflexivity.
  - repeat constructor; simpl; eauto.
  - simpl. constructor.
    + intros H. apply elem_of_cons in H as [H | H];
        [discriminate | inversion H].
    + constructor; [intros H; inversion H | constructor].
Defined.

(** X6: when no scanned file is named after a method, the route table is
    empty and no module is imported: the result does not depend on the
    loader. *)
Theorem getRoutes_no_handlers scan import config :
  (∀ file, file ∈ scan →
     Router.discover (Router.routesDirectory config)
       (default EmptyString (Router.routePrefix config)) file = None) →
  Router.getRoutes scan import config = Ok ∅.
Proof.
  intros Hnone. unfold Router.getRoutes, Router.readRoutes.
  set (f := Router.discover _ _) in *.
  assert (Hom : omap f scan = []).
  { induction scan as [| file rest IH]; [reflexivity |]. simpl.
    rewrite (Hnone file) by left. apply IH.
    intros file' Hin. apply Hnone. right. exact Hin. }
  rewrite Hom. reflexivity.
Qed.

Lemma getRoutes_no_handlers_witness :
  Router.getRoutes ["README.ts"; "users/helpers.ts"; "users/schema.js"]
    import_fails routes_config = Ok ∅.
Proof.
  apply (getRoutes_no_handlers
           ["README.ts"; "users/helpers.ts"; "users/schema.js"]
           import_fails routes_config).
  intros file Hin.
  repeat (apply elem_of_cons in Hin as [-> | Hin]; [reflexivity |]).
  inversion Hin.
Defined.

(** ** The handler of a route *)

(** X7: the handler of a route logs at most once.  It logs nothing when no
    logger is configured or when the pipeline returns a response, which it
    passes on unchanged.  A thrown [ResponseError] is answered by its
    rendering, and logged, with its message, only when it carries an
    internal error; any other thrown value is logged with its message.  The
    answer comes after the logging, so a logger that throws takes its
    place. *)
Theorem route_handler_logs authProvider logger Ctor key method request :
  let out := Router.route_handler authProvider logger Ctor key method request in
  (length out.2 ≤ 1)%nat ∧
  (logger = None → out.2 = []) ∧
  (∀ response, Router.attempt authProvider Ctor request = Ok response →
     out = (Ok response, [])) ∧
  (∀ e, Router.attempt authProvider Ctor request
        = Throw (ThrowResponseError e) →
     (logger_returns logger → out.1 = toResponse e) ∧
     (internalError e = None → out.1 = toResponse e ∧ out.2 = []) ∧
     (∀ internal error,
        internalError e = Some internal → logger = Some error →
        let entry := {| Router.log_message := message e;
                        Router.log_internalError := internal;
                        Router.log_stack := false;
                        Router.log_url := url request;
                        Router.log_method := Some method;
                        Router.log_path := key |} in
        out.2 = [entry] ∧
        out.1 = (error entry ≫= λ _, toResponse e))) ∧
  (∀ e error,
     Router.attempt authProvider Ctor request = Throw (ThrowError e) →
     logger = Some error →
     Router.log_message <$> out.2 = [err_message e] ∧
     (logger_returns logger → out.1 = Ok generic_500)) ∧
  (∀ v error,
     Router.attempt authProvider Ctor request = Throw (ThrowValue v) →
     logger = Some error →
     Router.log_message <$> out.2 = [String_of_value v] ∧
     (logger_returns logger → out.1 = Ok generic_500)).
Proof.
  unfold Router.route_handler.
  destruct (Router.attempt authProvider Ctor request) as [r | [e | e | v]],
    logger as [error |]; simpl;
    try destruct (internalError e) as [internal |] eqn:Hint; simpl;
    repeat split; intros; simplify_eq; simpl;
    try reflexivity; try lia; try congruence;
    match goal with
    | H : ∀ entry, _ = Ok tt |- _ => rewrite H; reflexivity
    end.
Qed.

Lemma route_handler_logs_witness :
  (logger_returns (Some quiet_logger) →
   (Router.route_handler None (Some quiet_logger) throwing_class "/users"
      "GET" plain_request).1 = toResponse user_not_found) ∧
  (internalError user_not_found = None →
   (Router.route_handler None (Some quiet_logger) throwing_class "/users"
      "GET" plain_request).1 = toResponse user_not_found ∧
   (Router.route_handler None (Some quiet_logger) throwing_class "/users"
      "GET" plain_request).2 = []) ∧
  (∀ internal error,
     internalError user_not_found = Some internal →
     Some quiet_logger = Some error →
     let entry := {| Router.log_message := message user_not_found;
                     Router.log_internalError := internal;
                     Router.log_stack := false;
                     Router.log_url := url plain_request;
                     Router.log_method := Some "GET";
                     Router.log_path := "/users" |} in
     (Router.route_handler None (Some quiet_logger) throwing_class "/users"
        "GET" plain_request).2 = [entry] ∧
     (Router.route_handler None (Some quiet_logger) throwing_class "/users"
        "GET" plain_request).1 =
       (error entry ≫= λ _, toResponse user_not_found)).
Proof.
  pose proof (route_handler_logs None (Some quiet_logger) throwing_class
                "/users" "GET" plain_request) as H.
  destruct H as (_ & _ & _ & H & _).
  apply (H user_not_found). reflexivity.
Defined.

Example route_handler_broken_logger :
  Router.route_handler None (Some broken_logger) throwing_class "/users"
    "GET" plain_request =
  (Throw (ThrowError {| err_message := "log sink closed" |}),
   [{| Router.log_message := "User not found";
       Router.log_internalError := {| err_message := "no row" |};
       Router.log_stack := false;
       Router.log_url := "http://localhost/items";
       Router.log_method := Some "GET";
       Router.log_path := "/users" |}]).
Proof. reflexivity. Qed.

(** ** Body validation in the pipeline *)

Lemma _validateJSONInput_frame c c' :
  _validateJSONInput c = Ok c' →
  session c' = session c ∧ ctx_session c' = ctx_session c.
Proof.
  unfold _validateJSONInput.
  destruct (inputSchema (props c)) as [schema |]; [| intros [= <-]; done].
  destruct (responseError c); [intros [= <-]; done |].
  destruct (req_json (request (props c))) as [input |];
    [| intros [= <-]; done].
  destruct (parseStandardSchema input schema) as [out | [e | e | v]]; simpl;
    intros [= <-]; done.
Qed.

Lemma _additionalValidation_frame {impl : Controller} c c' :
  _additionalValidation c = Ok c' →
  session c' = session c ∧ ctx_session c' = ctx_session c ∧
  json c' = json c ∧ props c' = props c ∧ params c' = params c.
Proof.
  unfold _additionalValidation.
  destruct (is_undefined (json c)); [intros [= <-]; done |].
  destruct (additionalValidation (json c)) as [r |]; simpl; [| discriminate].
  destruct r as [[| x extra] |]; simpl;
    destruct (default [] (responseError c ≫= fieldErrors)); simpl;
    intros [= <-]; done.
Qed.

(** The controller after the first two stages. *)
Lemma after_auth_frame args c2 :
  _validateUUIDs (new args) ≫= _checkAuthStatus = Ok c2 →
  props c2 = args ∧ json c2 = VUndefined.
Proof.
  intros H12.
  destruct (_validateUUIDs (new args)) as [c1 |] eqn:H1; [| discriminate].
  simpl in H12.
  destruct (_validateUUIDs_frame _ _ H1) as (Hp1 & Hj1 & _).
  destruct (_checkAuthStatus_frame _ _ H12) as (Hp2 & Hj2 & _).
  split; [rewrite Hp2, Hp1 | rewrite Hj2, Hj1]; reflexivity.
Qed.

(** When body validation sets an error, that error is the response. *)
Lemma body_validation_error {impl : Controller} args c2 e :
  _validateUUIDs (new args) ≫= _checkAuthStatus = Ok c2 →
  _validateJSONInput c2 = Ok (set_responseError e c2) →
  invoke (new args) = toResponse e.
Proof.
  intros H12 H3.
  destruct (after_auth_frame args c2 H12) as [_ Hj].
  unfold invoke. rewrite init_unfold, H12. simpl. rewrite H3. simpl.
  rewrite _additionalValidation_skipped by exact Hj. simpl.
  apply respond_pending. reflexivity.
Qed.

(** X8: when the pipeline reaches body validation without a pending error
    and the body of the request cannot be parsed, the response is 400 with
    the message "Invalid JSON body provided", whatever the schema and the
    user logic, which are not run. *)
Theorem invalid_json_body {impl : Controller} args schema c2 t :
  inputSchema args = Some schema →
  _validateUUIDs (new args) ≫= _checkAuthStatus = Ok c2 →
  responseError c2 = None →
  req_json (request args) = Throw t →
  invoke (new args) =
    Ok {| status := 400;
          body := VObj [("message", VStr "Invalid JSON body provided")] |}.
Proof.
  intros Hschema H12 Hnone Hjson.
  destruct (after_auth_frame args c2 H12) as [Hp _].
  apply (body_validation_error args c2
           (ValidationError (Some (with_message "Invalid JSON body provided")))
           H12).
  unfold _validateJSONInput. rewrite Hp, Hschema, Hnone, Hjson. reflexivity.
Qed.

(** X9: when the validator of a conforming schema throws, the user logic
    is not run: a thrown [ResponseError] is rendered as the response,
    anything else gives 400 with the message "Invalid input". *)
Theorem validator_exception {impl : Controller}
    args schema sp vf input c2 t :
  inputSchema args = Some schema →
  standard schema = Some sp →
  version_is_1 (version sp) = true →
  validate sp = Some vf →
  _validateUUIDs (new args) ≫= _checkAuthStatus = Ok c2 →
  responseError c2 = None →
  req_json (request args) = Ok input →
  vf input = Throw t →
  invoke (new args) =
    match t with
    | ThrowResponseError e => toResponse e
    | _ => Ok {| status := 400;
                 body := VObj [("message", VStr "Invalid input")] |}
    end.
Proof.
  intros Hschema Hs Hv Hf H12 Hnone Hjson Ht.
  destruct (after_auth_frame args c2 H12) as [Hp _].
  assert (Hparse : parseStandardSchema input schema = Throw t).
  { unfold parseStandardSchema. rewrite Hs, Hv, Hf. simpl. rewrite Ht.
    reflexivity. }
  destruct t as [e | e | v].
  - apply (body_validation_error args c2 e H12).
    unfold _validateJSONInput.
    rewrite Hp, Hschema, Hnone, Hjson, Hparse. reflexivity.
  - apply (body_validation_error args c2
             (ValidationError (Some (with_message "Invalid input"))) H12).
    unfold _validateJSONInput.
    rewrite Hp, Hschema, Hnone, Hjson, Hparse. reflexivity.
  - apply (body_validation_error args c2
             (ValidationError (Some (with_message "Invalid input"))) H12).
    unfold _validateJSONInput.
    rewrite Hp, Hschema, Hnone, Hjson, Hparse. reflexivity.
Qed.

(** X10: an outcome with an empty list of issues is still a failure: the
    value it may carry is ignored, the user logic is not run and the
    response is 400 "Bad Request" with an empty list of fields. *)
Theorem empty_issues_rejected {impl : Controller}
    args schema sp vf input c2 resolved :
  inputSchema args = Some schema →
  standard schema = Some sp →
  version_is_1 (version sp) = true →
  validate sp = Some vf →
  _validateUUIDs (new args) ≫= _checkAuthStatus = Ok c2 →
  responseError c2 = None →
  req_json (request args) = Ok input →
  vf input = Ok resolved →
  issues resolved = Some [] →
  invoke (new args) =
    Ok {| status := 400;
          body := VObj [("message", VStr "Bad Request");
                        ("fields", VStr "[]")] |}.
Proof.
  intros Hschema Hs Hv Hf H12 Hnone Hjson Hr Hi.
  destruct (after_auth_frame args c2 H12) as [Hp _].
  apply (body_validation_error args c2
           (ValidationError (Some (with_fieldErrors []))) H12).
  unfold _validateJSONInput.
  rewrite Hp, Hschema, Hnone, Hjson.
  rewrite (parseStandardSchema_issues _ _ _ _ _ _ Hs Hv Hf Hr Hi).
  reflexivity.
Qed.

Lemma invalid_json_body_witness :
  @invoke strict (new (users_post_with broken_body accepting_schema)) =
    Ok {| status := 400;
          body := VObj [("message", VStr "Invalid JSON body provided")] |}.
Proof.
  apply (@invalid_json_body strict
           (users_post_with broken_body accepting_schema) accepting_schema
           (set_params ∅ (new (users_post_with broken_body accepting_schema)))
           (ThrowError {| err_message := "Unexpected token" |}));
    reflexivity.
Defined.

Lemma validator_exception_witness :
  @invoke echo (new (users_post_with (json_request new_user) crashing_schema))
  = Ok {| status := 400; body := VObj [("message", VStr "Invalid input")] |}.
Proof.
  apply (@validator_exception echo
           (users_post_with (json_request new_user) crashing_schema)
           crashing_schema crashing_props crashing_validate new_user
           (set_params ∅
              (new (users_post_with (json_request new_user) crashing_schema)))
           (ThrowError {| err_message := "Cannot read properties" |}));
    reflexivity.
Defined.

Lemma empty_issues_rejected_witness :
  @invoke echo (new (users_post_with (json_request new_user) vacuous_schema))
  = Ok {| status := 400;
          body := VObj [("message", VStr "Bad Request");
                        ("fields", VStr "[]")] |}.
Proof.
  apply (@empty_issues_rejected echo
           (users_post_with (json_request new_user) vacuous_schema)
           vacuous_schema vacuous_props vacuous_validate new_user
           (set_params ∅
              (new (users_post_with (json_request new_user) vacuous_schema)))
           {| issues := Some []; out_value := new_user |});
    reflexivity.
Defined.

(** X11: without a declared schema the body of the request is not read
    and the extra validator is not called: the controller is the one left
    by the first two stages, with no validated body. *)
Theorem no_schema_no_extra_validation {impl : Controller} args :
  inputSchema args = None →
  init (new args) = _validateUUIDs (new args) ≫= _checkAuthStatus ∧
  (∀ c, init (new args) = Ok c → json c = VUndefined).
Proof.
  intros Hnone.
  assert (Hinit : init (new args) =
                  _validateUUIDs (new args) ≫= _checkAuthStatus).
  { rewrite init_unfold.
    destruct (_validateUUIDs (new args) ≫= _checkAuthStatus)
      as [c2 |] eqn:H12; [| reflexivity].
    destruct (after_auth_frame args c2 H12) as [Hp Hj]. simpl.
    rewrite _validateJSONInput_no_schema by (rewrite Hp; exact Hnone). simpl.
    apply _additionalValidation_skipped, Hj. }
  split; [exact Hinit |].
  intros c Hc. rewrite Hinit in Hc.
  apply (after_auth_frame args c Hc).
Qed.

Lemma no_schema_no_extra_validation_witness :
  @init strict (new no_schema) =
    _validateUUIDs (new no_schema) ≫= _checkAuthStatus ∧
  (∀ c, @init strict (new no_schema) = Ok c → json c = VUndefined).
Proof. apply (@no_schema_no_extra_validation strict no_schema). reflexivity. Defined.

(** ** Sessions *)

Lemma user_set_session s c :
  user (set_session s c) = default VUndefined (get "user" s).
Proof. unfold user. simpl. destruct s; reflexivity. Qed.

(** X12: when the provider of the controller finds a session (or finds
    none while authentication is optional), the user logic sees it: after
    the stages [session] and [ctx.session] are the value found and [user]
    is its [user] property, [undefined] when there is none. *)
Theorem session_reaches_user_logic {impl : Controller} args provider s :
  authProvider args = Some provider →
  getSession provider (headers (request args)) = Ok s →
  (requiresAuthentication args = true → truthy s = true) →
  ∀ c, init (new args) = Ok c →
    session c = s ∧ ctx_session c = s ∧
    user c = default VUndefined (get "user" s).
Proof.
  intros Hprov Hget Hok c Hinit.
  rewrite init_unfold in Hinit.
  destruct (_validateUUIDs (new args)) as [c1 |] eqn:H1; [| discriminate].
  destruct (_validateUUIDs_frame _ _ H1) as (Hp1 & _).
  simpl in Hinit.
  assert (H2 : _checkAuthStatus c1 = Ok (set_session s c1)).
  { unfold _checkAuthStatus. rewrite Hp1. simpl. rewrite Hprov, Hget. simpl.
    destruct (requiresAuthentication args); simpl; [| reflexivity].
    rewrite Hok by reflexivity. reflexivity. }
  rewrite H2 in Hinit. simpl in Hinit.
  destruct (_validateJSONInput (set_session s c1)) as [c3 |] eqn:H3;
    [| discriminate].
  simpl in Hinit.
  destruct (_validateJSONInput_frame _ _ H3) as (Hs3 & Hc3).
  destruct (_additionalValidation_frame _ _ Hinit) as (Hs4 & Hc4 & _).
  assert (Hs : session c = s) by (rewrite Hs4, Hs3; reflexivity).
  split; [exact Hs |]. split; [rewrite Hc4, Hc3; reflexivity |].
  unfold user. rewrite Hs. destruct s; reflexivity.
Qed.

Lemma session_reaches_user_logic_witness :
  session (set_session ada_session
             (set_params ∅ (new (profile_get true signed_in)))) = ada_session ∧
  ctx_session (set_session ada_session
                 (set_params ∅ (new (profile_get true signed_in))))
    = ada_session ∧
  user (set_session ada_session
          (set_params ∅ (new (profile_get true signed_in))))
    = default VUndefined (get "user" ada_session).
Proof.
  apply (@session_reaches_user_logic echo (profile_get true signed_in)
           signed_in ada_session eq_refl eq_refl (λ _, eq_refl)
           (set_session ada_session
              (set_params ∅ (new (profile_get true signed_in))))).
  reflexivity.
Defined.

(** X13: when the session lookup of the controller throws, the pipeline
    stops there: the invocation throws the same value for every user
    logic, and the handler of the route answers with the generic 500
    response unless a [ResponseError] was thrown (or the logger itself
    throws). *)
Theorem session_lookup_failure
    (handler : BaseController → result (Response * BaseController))
    config additionalValidator provider routerProvider logger key method
    request t :
  cfg_authProvider config = Some provider →
  getSession provider (headers request) = Throw t →
  (∀ ctx, @invoke (createController handler config additionalValidator).1
            ((createController handler config additionalValidator).2
               request ctx) = Throw t) ∧
  ((∀ p, routerProvider = Some p →
      ∃ s, getSession p (headers request) = Ok s) →
   is_ResponseError t = false →
   logger_returns logger →
   (Router.route_handler routerProvider logger
      (Router.controller_class
         (createController handler config additionalValidator))
      key method request).1 = Ok generic_500).
Proof.
  intros Hprov Hthrow.
  assert (Hinv : ∀ ctx,
            @invoke (createController handler config additionalValidator).1
              ((createController handler config additionalValidator).2
                 request ctx) = Throw t).
  { intros ctx. unfold invoke. rewrite init_unfold. simpl.
    match goal with
    | |- context [_validateUUIDs ?c0] =>
        destruct (_validateUUIDs_total c0) as (c1 & H1);
        destruct (_validateUUIDs_frame _ _ H1) as (Hp1 & _); rewrite H1
    end.
    simpl. unfold _checkAuthStatus. rewrite Hp1. simpl.
    rewrite Hprov, Hthrow. reflexivity. }
  split; [exact Hinv |].
  intros Hrouter Hk Hlog.
  assert (Hattempt :
    Router.attempt routerProvider
      (Router.controller_class
         (createController handler config additionalValidator)) request
    = Throw t).
  { unfold Router.attempt, Router.controller_class.
    destruct routerProvider as [p |].
    - destruct (Hrouter p eq_refl) as [s Hs]. rewrite Hs. apply Hinv.
    - apply Hinv. }
  unfold Router.route_handler. rewrite Hattempt.
  destruct t as [e | e | v]; [discriminate | |];
    (destruct logger as [error |];
     [cbn; rewrite (Hlog _); reflexivity | reflexivity]).
Qed.

Lemma session_lookup_failure_witness :
  (∀ ctx, @invoke (createController whoami
                     (profile_config false broken_provider) None).1
            ((createController whoami
                (profile_config false broken_provider) None).2
               plain_request ctx)
          = Throw (ThrowError {| err_message := "timeout" |})) ∧
  ((∀ p, Some signed_in = Some p →
      ∃ s, getSession p (headers plain_request) = Ok s) →
   is_ResponseError (ThrowError {| err_message := "timeout" |}) = false →
   logger_returns (Some quiet_logger) →
   (Router.route_handler (Some signed_in) (Some quiet_logger)
      (Router.controller_class
         (createController whoami (profile_config false broken_provider) None))
      "/profile" "GET" plain_request).1 = Ok generic_500).
Proof.
  apply (session_lookup_failure whoami (profile_config false broken_provider)
           None broken_provider (Some signed_in) (Some quiet_logger)
           "/profile" "GET"
           plain_request (ThrowError {| err_message := "timeout" |}));
    reflexivity.
Defined.

(** X14: a controller made by [createController] without an extra
    validator, or with one that returns no field error (an empty list or
    nothing) for the validated body, passes the extra validation stage
    unchanged, whatever is pending. *)
Theorem createController_no_extra_errors
    (handler : BaseController → result (Response * BaseController))
    config validator c :
  (∀ f, validator = Some f →
     ∃ r, f (json c) = Ok r ∧ default [] r = []) →
  @_additionalValidation (createController handler config validator).1 c
  = Ok c.
Proof.
  intros Hval. unfold _additionalValidation. simpl.
  destruct (is_undefined (json c)); [reflexivity |].
  assert (Hr : match validator with
               | Some f => r ← f (json c); Ok (Some (default [] r))
               | None => Ok (Some [])
               end = Ok (Some [])).
  { destruct validator as [f |]; [| reflexivity].
    destruct (Hval f eq_refl) as (r & Hf & Hd).
    rewrite Hf. simpl. rewrite Hd. reflexivity. }
  rewrite Hr. simpl.
  destruct c as [p cs j s pa [e |]]; simpl; [| reflexivity].
  destruct e as [n m rc d [[| fe fes] |] ie]; reflexivity.
Qed.

Lemma createController_no_extra_errors_witness :
  @_additionalValidation
    (createController whoami (profile_config false signed_in)
       (Some (λ _, Ok None))).1 pending_with_body
  = Ok pending_with_body.
Proof.
  apply (createController_no_extra_errors whoami
           (profile_config false signed_in) (Some (λ _, Ok None))
           pending_with_body).
  intros f [= <-]. exists None. split; reflexivity.
Defined.

(** X15: a controller without a provider of its own never sets [session]:
    whatever context the router passes, the user logic finds [session] and
    [user] undefined and the context as the router made it. *)
Theorem session_needs_own_provider {impl : Controller} args :
  authProvider args = None →
  ∀ c, init (new args) = Ok c →
    session c = VUndefined ∧ user c = VUndefined ∧ ctx_session c = ctx args.
Proof.
  intros Hnone c Hinit. rewrite init_unfold in Hinit.
  destruct (_validateUUIDs (new args)) as [c1 |] eqn:H1; [| discriminate].
  destruct (_validateUUIDs_frame _ _ H1) as (Hp1 & _ & Hs1 & Hc1).
  simpl in Hinit.
  destruct (_checkAuthStatus c1) as [c2 |] eqn:H2; [| discriminate].
  assert (Hs2 : session c2 = session c1 ∧ ctx_session c2 = ctx_session c1).
  { unfold _checkAuthStatus in H2. rewrite Hp1 in H2. simpl in H2.
    rewrite Hnone in H2.
    destruct (requiresAuthentication args); injection H2 as <-; done. }
  simpl in Hinit.
  destruct (_validateJSONInput c2) as [c3 |] eqn:H3; [| discriminate].
  simpl in Hinit.
  destruct (_validateJSONInput_frame _ _ H3) as (Hs3 & Hc3).
  destruct (_additionalValidation_frame _ _ Hinit) as (Hs4 & Hc4 & _).
  destruct Hs2 as [Hs2 Hc2].
  assert (Hs : session c = VUndefined)
    by (rewrite Hs4, Hs3, Hs2, Hs1; reflexivity).
  split; [exact Hs |]. split; [unfold user; rewrite Hs; reflexivity |].
  rewrite Hc4, Hc3, Hc2, Hc1. reflexivity.
Qed.

Lemma session_needs_own_provider_witness :
  session (set_params ∅ (new no_schema)) = VUndefined ∧
  user (set_params ∅ (new no_schema)) = VUndefined ∧
  ctx_session (set_params ∅ (new no_schema)) = ctx no_schema.
Proof.
  apply (@session_needs_own_provider echo no_schema eq_refl
           (set_params ∅ (new no_schema))).
  reflexivity.
Defined.

Example whoami_signed_in :
  Router.route_handler None None
    (Router.controller_class
       (createController whoami (profile_config true signed_in) None))
    "/profile" "GET" plain_request =
  (Ok {| status := 200; body := VObj [("id", VStr "123")] |}, []).
Proof. reflexivity. Qed.

Example whoami_router_session_only :
  Router.route_handler (Some signed_in) None
    (Router.controller_class
       (createController whoami
          {| validationSchema := None; cfg_validateUUIDs := None;
             cfg_requiresAuthentication := false; cfg_authProvider := None |}
          None))
    "/profile" "GET" plain_request =
  (Ok {| status := 200; body := VUndefined |}, []).
Proof. reflexivity. Qed.

(** ** Validated parameters *)

Lemma validate_keys_sound params keys acc m :
  validate_keys params keys acc = Some m →
  ∀ key raw, m !! key = Some raw →
    (key ∈ keys ∧ params !! key = Some raw ∧ validateUUID raw = true) ∨
    acc !! key = Some raw.
Proof.
  revert acc. induction keys as [| k rest IH]; intros acc; cbn [validate_keys].
  - intros [= <-] key raw H. right. exact H.
  - destruct (params !! k) as [v |] eqn:Hk; [| discriminate].
    destruct (truthy (VStr v)); cbn [negb]; [| discriminate].
    destruct (validateUUID v) eqn:Hv; [| discriminate].
    intros Hm key raw Hl.
    destruct (IH _ Hm key raw Hl) as [(Hin & Hp & Hu) | Hacc].
    + left. split; [right; exact Hin | split; assumption].
    + rewrite lookup_assign in Hacc.
      destruct (decide (key = k ∧ k ≠ "__proto__")) as [[-> _] | _].
      * injection Hacc as <-. left. split; [left | split; assumption].
      * right. exact Hacc.
Qed.

(** X16: whatever the request, the validated parameters that the stages
    leave on the controller hold only declared keys, each bound to the
    value of the request, and that value is a well-formed UUID. *)
Theorem validated_params_are_uuids {impl : Controller} args c :
  init (new args) = Ok c →
  ∃ m, params c = Some m ∧
    ∀ key raw, m !! key = Some raw →
      key ∈ default [] (validateUUIDs args) ∧
      (req_params (request args) ≫= (.!! key)) = Some raw ∧
      validateUUID raw = true.
Proof.
  intros Hinit. rewrite init_unfold in Hinit.
  destruct (_validateUUIDs (new args)) as [c1 |] eqn:H1; [| discriminate].
  simpl in Hinit.
  destruct (_checkAuthStatus c1) as [c2 |] eqn:H2; [| discriminate].
  simpl in Hinit.
  destruct (_validateJSONInput_cases c2) as (c3 & H3 & _ & Hpa3 & _).
  rewrite H3 in Hinit. simpl in Hinit.
  destruct (_additionalValidation_frame _ _ Hinit) as (_ & _ & _ & _ & Hpa4).
  destruct (_checkAuthStatus_frame _ _ H2) as (_ & _ & Hpa2).
  assert (Hpa : params c = params c1) by congruence.
  rewrite Hpa. clear -H1.
  unfold _validateUUIDs in H1. simpl in H1.
  destruct (validateUUIDs args) as [keys |];
    [| injection H1 as <-; exists ∅; split; [reflexivity |];
       intros key raw H; rewrite lookup_empty in H; discriminate].
  destruct (req_params (request args)) as [pm |];
    [| injection H1 as <-; exists ∅; split; [reflexivity |];
       intros key raw H; rewrite lookup_empty in H; discriminate].
  destruct (validate_keys pm keys ∅) as [m |] eqn:Hm; injection H1 as <-.
  - exists m. split; [reflexivity |]. intros key raw Hl.
    destruct (validate_keys_sound _ _ _ _ Hm key raw Hl)
      as [(Hin & Hp & Hu) | Hacc].
    + simpl. split; [exact Hin | split; assumption].
    + rewrite lookup_empty in Hacc. discriminate.
  - exists ∅. split; [reflexivity |].
    intros key raw H. rewrite lookup_empty in H. discriminate.
Qed.

Lemma validated_params_are_uuids_witness :
  ∃ m, params (set_params {[ "id" := some_uuid ]} (new (open_item some_uuid)))
       = Some m ∧
    ∀ key raw, m !! key = Some raw →
      key ∈ default [] (validateUUIDs (open_item some_uuid)) ∧
      (req_params (request (open_item some_uuid)) ≫= (.!! key)) = Some raw ∧
      validateUUID raw = true.
Proof.
  apply (@validated_params_are_uuids echo (open_item some_uuid)
           (set_params {[ "id" := some_uuid ]} (new (open_item some_uuid)))).
  vm_compute. reflexivity.
Defined.

(** ** Modules that cannot be used *)

Lemma import_all_throws import discovered d t :
  d ∈ discovered → import (Router.handler d) = Throw t →
  ∃ t', Router.import_all import discovered = Throw t'.
Proof.
  induction discovered as [| d0 rest IH]; intros Hin Ht.
  - inversion Hin.
  - simpl. destruct (import (Router.handler d0)) as [m0 |] eqn:H0;
      [| eauto]. simpl.
    apply elem_of_cons in Hin as [-> | Hin]; [congruence |].
    destruct (IH Hin Ht) as [t' ->]. eauto.
Qed.

Lemma register_not_a_class authProvider logger entries routes d imported :
  (d, imported) ∈ entries → Router.default_export imported = None →
  ∃ t, Router.register authProvider logger entries routes = Throw t.
Proof.
  revert routes. induction entries as [| [d0 m0] rest IH]; intros routes Hin Hn.
  - inversion Hin.
  - cbn [Router.register].
    destruct (Router.default_export m0) as [Ctor |] eqn:HC; [| eauto].
    destruct (default ∅ (routes !! Router.path d0) !! _); [eauto |].
    apply elem_of_cons in Hin as [[= <- <-] | Hin]; [congruence |].
    apply IH; assumption.
Qed.

(** X17: a discovered file that cannot be imported, or whose default
    export is not a class, is fatal: the construction of the route table
    throws and yields no table, even if every other file is in order. *)
Theorem unusable_module_is_fatal import discovered authProvider logger d :
  d ∈ discovered →
  (∃ t, import (Router.handler d) = Throw t) ∨
  import (Router.handler d) = Ok {| Router.default_export := None |} →
  ∃ t, Router.parseRoutes import discovered authProvider logger = Throw t.
Proof.
  intros Hin Hbad. unfold Router.parseRoutes.
  destruct (Router.import_all import discovered) as [imports |] eqn:Himp;
    [| simpl; eauto].
  simpl. destruct Hbad as [[t Ht] | Hobj].
  - destruct (import_all_throws _ _ _ _ Hin Ht) as [t' Ht']. congruence.
  - apply (register_not_a_class _ _ _ _ d {| Router.default_export := None |});
      [| reflexivity].
    clear -Hin Hobj Himp. revert imports Himp.
    induction discovered as [| d0 rest IH]; intros imports Himp.
    + inversion Hin.
    + simpl in Himp.
      destruct (import (Router.handler d0)) as [m0 |] eqn:H0; [| discriminate].
      simpl in Himp.
      destruct (Router.import_all import rest) as [ms |]; [| discriminate].
      simpl in Himp. injection Himp as <-. simpl.
      apply elem_of_cons in Hin as [-> | Hin].
      * rewrite Hobj in H0. injection H0 as <-. left.
      * right. apply IH; [exact Hin | reflexivity].
Qed.

Lemma unusable_module_is_fatal_witness :
  ∃ t, Router.parseRoutes import_object
         [items_get "routes/items/get.ts"; items_post "routes/items/post.ts"]
         None None = Throw t.
Proof.
  apply (unusable_module_is_fatal import_object
           [items_get "routes/items/get.ts"; items_post "routes/items/post.ts"]
           None None (items_post "routes/items/post.ts")).
  - right. left.
  - right. reflexivity.
Defined.
